(** * tsddns: the resolution pass, the client factory and the run loop

    A shallow embedding of [main.go].  Pure helpers ([getDeviceIP], the
    prefix tests) are Rocq functions; code that talks to the outside
    (the remote API, the file system, the logger) runs in a small monad
    that threads the state of the outside world, collects the events
    the code emits, in order, and stops at the first Go [error]. *)

From Stdlib Require Import String Ascii ZArith.
From stdpp Require Import gmap strings list fin_maps.

Local Open Scope string_scope.

(** ** Go values *)

(** The [error] values the program builds.  One constructor per
    [fmt.Errorf] site; [cause] is the error wrapped with [%w].
    [ErrExternal] is an error handed back by a library or by the remote
    API. *)
Inductive error : Type :=
| ErrExternal (msg : string)
| ErrInvalidBaseURL (cause : error)
| ErrNeedCreds
| ErrReadingConfig (cause : error)
| ErrParsingConfig (cause : error)
| ErrListingDevices (cause : error)
| ErrResolvingService (ns : string) (cause : error)
| ErrResolvingDevice (deviceName : string) (cause : error)
| ErrNoAuth
| ErrAPIStatus (code : Z)
| ErrServiceNoAddrs (serviceName : string)
| ErrDeviceNoAddrs (hostname : string)
| ErrDeviceNotFound (hostname : string)
| ErrResolvingServices (cause : error)
| ErrUpdatingSplitDNS (cause : error).

(** A Go [(T, error)] return. *)
Inductive result (A : Type) : Type :=
| Ok (a : A)
| Err (e : error).
Arguments Ok {A} a.
Arguments Err {A} e.

Definition is_ok {A} (r : result A) : bool :=
  match r with Ok _ => true | Err _ => false end.

(** [type Config map[string][]string]; [tailscale.SplitDNSRequest] is
    the same map type. *)
Abbreviation Config := (gmap string (list string)).
Abbreviation SplitDNSRequest := (gmap string (list string)).

(** [type ServiceInfo struct] *)
Record ServiceInfo : Type := mkServiceInfo {
  svc_Name : string;
  Addrs : list string
}.

(** The fields of [tailscale.Device] the program reads. *)
Record Device : Type := mkDevice {
  Name : string;
  Hostname : string;
  Addresses : list string
}.

(** [clientcredentials.Config] *)
Record OAuthConfig : Type := mkOAuthConfig {
  ClientID : string;
  ClientSecret : string;
  TokenURL : string
}.

(** The two [*http.Client] values the program uses: [&http.Client{}]
    and [oauthConfig.Client(ctx)]. *)
Inductive HTTPClient : Type :=
| DefaultHTTPClient
| OAuthHTTPClient (cfg : OAuthConfig).

(** [tailscale.Client]; [HTTP = None] is the nil pointer. *)
Record Client (URL : Type) : Type := mkClient {
  Tailnet : string;
  BaseURL : URL;
  APIKey : string;
  HTTP : option HTTPClient
}.
Arguments mkClient {URL}.
Arguments Tailnet {URL}.
Arguments BaseURL {URL}.
Arguments APIKey {URL}.
Arguments HTTP {URL}.

(** An [*http.Request] as [getServiceIP] builds it. *)
Record Request : Type := mkRequest {
  Method : string;
  ReqURL : string;
  BasicAuth : option (string * string)
}.

Record Response : Type := mkResponse {
  StatusCode : Z;
  Body : string
}.

Definition http_StatusOK : Z := 200.

(** ** Events *)

(** The [log.Printf], [log.Println] and [log.Fatalf] calls of the
    program, as format and arguments. *)
Inductive LogMsg : Type :=
| LogFatalLoadConfig (e : error)
| LogFatalCreateClient (e : error)
| LogDaemonMode (interval : Z)
| LogErrorUpdatingDNS (e : error)
| LogFatalUpdateDNS (e : error)
| LogUpdating (ndomains : nat)
| LogEntry (domain : string) (nameservers : list string)
| LogSuccess
| LogUsingOAuth
| LogUsingAPIKey
| LogResolvingService (ns domain : string)
| LogResolvedService (ns ip : string)
| LogResolvingDevice (deviceName domain : string)
| LogResolvedDevice (deviceName ip : string).

(** What the program does to the outside, with the answer it got. *)
Inductive Event : Type :=
| EvLog (m : LogMsg)
| EvReadFile (path : string) (r : result string)
| EvListDevices (r : result (list Device))
| EvHTTPDo (hc : HTTPClient) (req : Request) (r : result Response)
| EvSetSplitDNS (table : SplitDNSRequest) (r : option error).

(** ** The [strings] helpers *)

Definition HasPrefix (s prefix : string) : bool := String.prefix prefix s.

Definition TrimPrefix (s prefix : string) : string :=
  if HasPrefix s prefix
  then String.substring (String.length prefix)
         (String.length s - String.length prefix) s
  else s.

(** ** [getDeviceIP] *)

(** The condition of the [if] in the loop of [getDeviceIP]. *)
Definition deviceMatches (hostname : string) (device : Device) : bool :=
  String.eqb (Hostname device) hostname
  || String.eqb (Name device) hostname
  || HasPrefix (Name device) (hostname ++ ".").

Fixpoint getDeviceIP (hostname : string) (devices : list Device) : result string :=
  match devices with
  | [] => Err (ErrDeviceNotFound hostname)
  | device :: rest =>
      if deviceMatches hostname device then
        match Addresses device with
        | [] => Err (ErrDeviceNoAddrs hostname)
        | ip :: _ => Ok ip
        end
      else getDeviceIP hostname rest
  end.

(** The three tests of [deviceMatches], one by one, and the reading of
    the match order as a precedence between them: look for a device
    with the exact hostname first, for one with the exact display name
    only when there is none, and for one with the dotted prefix only
    when there is none of those either. *)
Definition hostnameIs (hostname : string) (device : Device) : bool :=
  String.eqb (Hostname device) hostname.
Definition nameIs (hostname : string) (device : Device) : bool :=
  String.eqb (Name device) hostname.
Definition nameHasDotPrefix (hostname : string) (device : Device) : bool :=
  HasPrefix (Name device) (hostname ++ ".").

Definition firstAddress (hostname : string) (device : Device) : result string :=
  match Addresses device with
  | [] => Err (ErrDeviceNoAddrs hostname)
  | ip :: _ => Ok ip
  end.

Definition getDeviceIP_by_precedence (hostname : string) (devices : list Device)
  : result string :=
  match List.find (hostnameIs hostname) devices with
  | Some device => firstAddress hostname device
  | None =>
      match List.find (nameIs hostname) devices with
      | Some device => firstAddress hostname device
      | None =>
          match List.find (nameHasDotPrefix hostname) devices with
          | Some device => firstAddress hostname device
          | None => Err (ErrDeviceNotFound hostname)
          end
      end
  end.

(** ** The outside world *)

(** What the program calls and does not define: the Go standard
    library ([net/url], [net/http], [encoding/json], [os]), the
    tailscale client, and the order in which the runtime walks a map.
    [World] is the state of everything outside the process. *)
Class Env (World URL : Type) : Type := {
  (** [url.Parse] and the [String] method of the parsed URL *)
  url_Parse : string → result URL;
  URL_String : URL → string;
  (** the error of [http.NewRequestWithContext(ctx, "GET", url, nil)],
      [None] when the request is built *)
  http_NewRequest_error : string → option error;
  (** [json.NewDecoder(body).Decode(&svcInfo)] *)
  json_Decode_ServiceInfo : string → result ServiceInfo;
  (** [json.Unmarshal(data, &cfg)] *)
  json_Unmarshal_Config : string → result Config;
  os_ReadFile : string → World → World * result string;
  (** [client.Devices().List(ctx)] *)
  Devices_List : Client URL → World → World * result (list Device);
  (** [httpClient.Do(req)] *)
  HTTPClient_Do : HTTPClient → Request → World → World * result Response;
  (** [client.DNS().SetSplitDNS(ctx, splitDNS)], [None] for a nil error *)
  DNS_SetSplitDNS : Client URL → SplitDNSRequest → World → World * option error;
  (** [for k, v := range m]: the runtime picks the order, every entry
      comes once *)
  map_range : gmap string (list string) → World → World * list (string * list string);
  map_range_perm : ∀ m w, (map_range m w).2 ≡ₚ map_to_list m
}.

(** ** The monad *)

Record Out (World A : Type) : Type := mkOut {
  out_world : World;
  out_trace : list Event;
  out_result : result A
}.
Arguments mkOut {World A}.
Arguments out_world {World A}.
Arguments out_trace {World A}.
Arguments out_result {World A}.

Definition M (World A : Type) : Type := World → Out World A.

Definition ret {World A} (a : A) : M World A :=
  fun w => mkOut w [] (Ok a).

Definition fail {World A} (e : error) : M World A :=
  fun w => mkOut w [] (Err e).

Definition bind {World A B} (m : M World A) (k : A → M World B) : M World B :=
  fun w =>
    match m w with
    | mkOut w1 t1 (Ok a) =>
        match k a w1 with
        | mkOut w2 t2 r => mkOut w2 (t1 ++ t2) r
        end
    | mkOut w1 t1 (Err e) => mkOut w1 t1 (Err e)
    end.

Notation "x <- c1 ;; c2" := (bind c1 (fun x => c2))
  (at level 100, c1 at next level, right associativity).
Notation "c1 ;; c2" := (bind c1 (fun _ => c2))
  (at level 100, right associativity).

(** [if err != nil { return ..., fmt.Errorf("...: %w", err) }] *)
Definition wrapErr {World A} (wrap : error → error) (m : M World A) : M World A :=
  fun w =>
    match m w with
    | mkOut w1 t1 (Ok a) => mkOut w1 t1 (Ok a)
    | mkOut w1 t1 (Err e) => mkOut w1 t1 (Err (wrap e))
    end.

Definition emit {World} (ev : Event) : M World unit :=
  fun w => mkOut w [ev] (Ok tt).

Definition log {World} (m : LogMsg) : M World unit := emit (EvLog m).

Definition liftResult {World A} (r : result A) : M World A :=
  fun w => mkOut w [] r.

Section Program.
Context {World URL : Type} `{!Env World URL}.

Abbreviation M' := (M World).

(** *** Calls to the outside, each leaving its event *)

Definition readFile (path : string) : M' string :=
  fun w => let '(w1, r) := os_ReadFile path w in mkOut w1 [EvReadFile path r] r.

Definition listDevices (client : Client URL) : M' (list Device) :=
  fun w => let '(w1, r) := Devices_List client w in mkOut w1 [EvListDevices r] r.

Definition httpDo (hc : HTTPClient) (req : Request) : M' Response :=
  fun w => let '(w1, r) := HTTPClient_Do hc req w in mkOut w1 [EvHTTPDo hc req r] r.

Definition setSplitDNS (client : Client URL) (table : SplitDNSRequest) : M' unit :=
  fun w =>
    let '(w1, r) := DNS_SetSplitDNS client table w in
    mkOut w1 [EvSetSplitDNS table r]
      match r with None => Ok tt | Some e => Err e end.

Definition rangeMap (m : gmap string (list string)) : M' (list (string * list string)) :=
  fun w => let '(w1, order) := map_range m w in mkOut w1 [] (Ok order).

(** *** [getServiceIP] *)

(** [fmt.Sprintf("%s/api/v2/tailnet/%s/services/%s/", ...)] *)
Definition serviceURL (client : Client URL) (serviceName : string) : string :=
  URL_String (BaseURL client) ++ "/api/v2/tailnet/" ++ Tailnet client
    ++ "/services/" ++ serviceName ++ "/".

Definition getServiceIP (client : Client URL) (serviceName : string) : M' string :=
  let url := serviceURL client serviceName in
  match http_NewRequest_error url with
  | Some err => fail err
  | None =>
      let req := mkRequest "GET" url None in
      reqc <- (if negb (String.eqb (APIKey client) "") then
                 ret (mkRequest "GET" url (Some (APIKey client, "")), DefaultHTTPClient)
               else
                 match HTTP client with
                 | Some hc => ret (req, hc)
                 | None => fail ErrNoAuth
                 end) ;;
      resp <- httpDo reqc.2 reqc.1 ;;
      if negb (Z.eqb (StatusCode resp) http_StatusOK) then
        fail (ErrAPIStatus (StatusCode resp))
      else
        svcInfo <- liftResult (json_Decode_ServiceInfo (Body resp)) ;;
        match Addrs svcInfo with
        | [] => fail (ErrServiceNoAddrs serviceName)
        | ip :: _ => ret ip
        end
  end.

(** *** [resolveSplitDNS] *)

(** The inner loop of the scan: [true] as soon as one nameserver has
    the [device:] prefix. *)
Fixpoint scanNameservers (nameservers : list string) : bool :=
  match nameservers with
  | [] => false
  | ns :: rest =>
      if HasPrefix ns "device:" then true else scanNameservers rest
  end.

(** The outer loop of the scan, with its second [break]. *)
Fixpoint scanConfig (order : list (string * list string)) : bool :=
  match order with
  | [] => false
  | (_, nameservers) :: rest =>
      if scanNameservers nameservers then true else scanConfig rest
  end.

(** The body of the inner resolution loop: one nameserver to one
    address. *)
Definition resolveNameserver (client : Client URL) (devices : list Device)
    (domain ns : string) : M' string :=
  if HasPrefix ns "svc:" then
    log (LogResolvingService ns domain) ;;
    ip <- wrapErr (ErrResolvingService ns) (getServiceIP client ns) ;;
    log (LogResolvedService ns ip) ;;
    ret ip
  else if HasPrefix ns "device:" then
    let deviceName := TrimPrefix ns "device:" in
    log (LogResolvingDevice deviceName domain) ;;
    ip <- wrapErr (ErrResolvingDevice deviceName)
            (liftResult (getDeviceIP deviceName devices)) ;;
    log (LogResolvedDevice deviceName ip) ;;
    ret ip
  else ret ns.

(** [for _, ns := range nameservers { ... resolved = append(resolved, ip) }] *)
Fixpoint resolveNameservers (client : Client URL) (devices : list Device)
    (domain : string) (nameservers : list string) (resolved : list string)
    : M' (list string) :=
  match nameservers with
  | [] => ret resolved
  | ns :: rest =>
      ip <- resolveNameserver client devices domain ns ;;
      resolveNameservers client devices domain rest (resolved ++ [ip])
  end.

(** [for domain, nameservers := range cfg { ... splitDNS[domain] = resolved }] *)
Fixpoint resolveDomains (client : Client URL) (devices : list Device)
    (order : list (string * list string)) (splitDNS : SplitDNSRequest)
    : M' SplitDNSRequest :=
  match order with
  | [] => ret splitDNS
  | (domain, nameservers) :: rest =>
      resolved <- resolveNameservers client devices domain nameservers [] ;;
      resolveDomains client devices rest (<[domain := resolved]> splitDNS)
  end.

Definition resolveSplitDNS (client : Client URL) (cfg : Config) : M' SplitDNSRequest :=
  let splitDNS : SplitDNSRequest := ∅ in
  scanOrder <- rangeMap cfg ;;
  let needsDevices := scanConfig scanOrder in
  devices <- (if needsDevices then wrapErr ErrListingDevices (listDevices client)
              else ret []) ;;
  order <- rangeMap cfg ;;
  resolveDomains client devices order splitDNS.

(** *** [updateDNS] *)

Fixpoint logEntries (order : list (string * list string)) : M' unit :=
  match order with
  | [] => ret tt
  | (domain, nameservers) :: rest =>
      log (LogEntry domain nameservers) ;; logEntries rest
  end.

Definition updateDNS (client : Client URL) (cfg : Config) : M' unit :=
  splitDNS <- wrapErr ErrResolvingServices (resolveSplitDNS client cfg) ;;
  log (LogUpdating (size splitDNS)) ;;
  order <- rangeMap splitDNS ;;
  logEntries order ;;
  wrapErr ErrUpdatingSplitDNS (setSplitDNS client splitDNS) ;;
  log LogSuccess ;;
  ret tt.

(** *** [createClient] *)

Definition createClient (tailnet apiKey clientID clientSecret baseURL : string)
    : M' (Client URL) :=
  match url_Parse baseURL with
  | Err err => fail (ErrInvalidBaseURL err)
  | Ok parsedURL =>
      let client := mkClient tailnet parsedURL "" None in
      if negb (String.eqb clientID "") && negb (String.eqb clientSecret "") then
        log LogUsingOAuth ;;
        let oauthConfig :=
          mkOAuthConfig clientID clientSecret (baseURL ++ "/api/v2/oauth/token") in
        ret (mkClient (Tailnet client) (BaseURL client) (APIKey client)
               (Some (OAuthHTTPClient oauthConfig)))
      else if negb (String.eqb apiKey "") then
        log LogUsingAPIKey ;;
        ret (mkClient (Tailnet client) (BaseURL client) apiKey (HTTP client))
      else fail ErrNeedCreds
  end.

(** *** [loadConfig] *)

Definition loadConfig (path : string) : M' Config :=
  data <- wrapErr ErrReadingConfig (readFile path) ;;
  cfg <- wrapErr ErrParsingConfig (liftResult (json_Unmarshal_Config data)) ;;
  ret cfg.

(** *** [main] *)

(** The parsed command line. [interval] is a [time.Duration]. *)
Record Flags : Type := mkFlags {
  configPath : string;
  tailnet : string;
  apiKey : string;
  clientID : string;
  clientSecret : string;
  baseURL : string;
  interval : Z
}.

(** How an observation of the process ends: it has exited with a
    status, or it is still in the [for range ticker.C] loop, waiting
    for the next tick. *)
Inductive Outcome : Type :=
| Exited (code : Z)
| Waiting.

(** [if err := m; err != nil { onErr } ; k] *)
Definition handle {A B} (m : M' A) (onErr : error → M' B) (k : A → M' B) : M' B :=
  fun w =>
    match m w with
    | mkOut w1 t1 (Ok a) =>
        match k a w1 with mkOut w2 t2 r => mkOut w2 (t1 ++ t2) r end
    | mkOut w1 t1 (Err e) =>
        match onErr e w1 with mkOut w2 t2 r => mkOut w2 (t1 ++ t2) r end
    end.

(** [log.Fatalf]: the message, then [os.Exit(1)]. *)
Definition fatal (m : LogMsg) : M' Outcome := log m ;; ret (Exited 1).

(** The closure [runUpdate] of [main]. *)
Definition runUpdate (client : Client URL) (cfg : Config) : M' unit :=
  handle (updateDNS client cfg)
    (fun err => log (LogErrorUpdatingDNS err))
    (fun _ => ret tt).

(** [for range ticker.C { runUpdate() }], for the first [ticks] values
    the channel delivers. *)
Fixpoint tickLoop (client : Client URL) (cfg : Config) (ticks : nat) : M' unit :=
  match ticks with
  | O => ret tt
  | S n => runUpdate client cfg ;; tickLoop client cfg n
  end.

(** [main], observed until the process exits or until the ticker has
    delivered [ticks] values and the loop waits for the next one. *)
Definition main (flags : Flags) (ticks : nat) : M' Outcome :=
  handle (loadConfig (configPath flags))
    (fun err => fatal (LogFatalLoadConfig err))
    (fun cfg =>
       handle (createClient (tailnet flags) (apiKey flags) (clientID flags)
                 (clientSecret flags) (baseURL flags))
         (fun err => fatal (LogFatalCreateClient err))
         (fun client =>
            if (interval flags >? 0)%Z then
              log (LogDaemonMode (interval flags)) ;;
              runUpdate client cfg ;;
              tickLoop client cfg ticks ;;
              ret Waiting
            else
              handle (updateDNS client cfg)
                (fun err => fatal (LogFatalUpdateDNS err))
                (fun _ => ret (Exited 0)))).

End Program.

(** * The vocabulary of the properties *)

Section Vocabulary.
Context {World URL : Type} `{!Env World URL}.
Local Open Scope list_scope.
Local Open Scope nat_scope.

(** ** What one run leaves behind

    The relations below say which trace and which result a run of each
    function can have, whatever the world answers.  They forget the
    world; the lemmas [*_run] show that every run of the function is
    one of the relation. *)

(** What [getServiceIP] returns once [httpClient.Do] has answered. *)
Definition serviceAnswer (serviceName : string) (r : result Response) : result string :=
  match r with
  | Err e => Err e
  | Ok resp =>
      if negb (Z.eqb (StatusCode resp) http_StatusOK) then
        Err (ErrAPIStatus (StatusCode resp))
      else
        match json_Decode_ServiceInfo (Body resp) with
        | Err e => Err e
        | Ok svcInfo =>
            match Addrs svcInfo with
            | [] => Err (ErrServiceNoAddrs serviceName)
            | ip :: _ => Ok ip
            end
        end
  end.

(** A run of [getServiceIP]: no request could be built, no
    credentials were there to send it with, or the request was sent and
    answered. *)
Inductive SvcRun (client : Client URL) (serviceName : string)
  : list Event → result string → Prop :=
| SvcNoRequest err :
    http_NewRequest_error (serviceURL client serviceName) = Some err →
    SvcRun client serviceName [] (Err err)
| SvcNoAuth :
    http_NewRequest_error (serviceURL client serviceName) = None →
    APIKey client = "" → HTTP client = None →
    SvcRun client serviceName [] (Err ErrNoAuth)
| SvcAsked hc req r :
    http_NewRequest_error (serviceURL client serviceName) = None →
    Method req = "GET" →
    ReqURL req = serviceURL client serviceName →
    SvcRun client serviceName [EvHTTPDo hc req r] (serviceAnswer serviceName r).

(** A run of the body of the inner loop on one nameserver. *)
Inductive NsRun (client : Client URL) (devices : list Device) (domain ns : string)
  : list Event → result string → Prop :=
| NsLiteral :
    HasPrefix ns "svc:" = false → HasPrefix ns "device:" = false →
    NsRun client devices domain ns [] (Ok ns)
| NsDeviceOk ip :
    HasPrefix ns "svc:" = false → HasPrefix ns "device:" = true →
    getDeviceIP (TrimPrefix ns "device:") devices = Ok ip →
    NsRun client devices domain ns
      [EvLog (LogResolvingDevice (TrimPrefix ns "device:") domain);
       EvLog (LogResolvedDevice (TrimPrefix ns "device:") ip)]
      (Ok ip)
| NsDeviceErr e :
    HasPrefix ns "svc:" = false → HasPrefix ns "device:" = true →
    getDeviceIP (TrimPrefix ns "device:") devices = Err e →
    NsRun client devices domain ns
      [EvLog (LogResolvingDevice (TrimPrefix ns "device:") domain)]
      (Err (ErrResolvingDevice (TrimPrefix ns "device:") e))
| NsServiceOk t ip :
    HasPrefix ns "svc:" = true →
    SvcRun client ns t (Ok ip) →
    NsRun client devices domain ns
      (EvLog (LogResolvingService ns domain) :: t ++ [EvLog (LogResolvedService ns ip)])
      (Ok ip)
| NsServiceErr t e :
    HasPrefix ns "svc:" = true →
    SvcRun client ns t (Err e) →
    NsRun client devices domain ns
      (EvLog (LogResolvingService ns domain) :: t)
      (Err (ErrResolvingService ns e)).

(** A run of the inner loop: it ends with the list, or at the first
    nameserver that fails. *)
Inductive NssRun (client : Client URL) (devices : list Device) (domain : string)
  : list string → list string → list Event → result (list string) → Prop :=
| NssDone resolved :
    NssRun client devices domain [] resolved [] (Ok resolved)
| NssAbort ns rest resolved t e :
    NsRun client devices domain ns t (Err e) →
    NssRun client devices domain (ns :: rest) resolved t (Err e)
| NssNext ns rest resolved t1 ip t2 r :
    NsRun client devices domain ns t1 (Ok ip) →
    NssRun client devices domain rest (resolved ++ [ip]) t2 r →
    NssRun client devices domain (ns :: rest) resolved (t1 ++ t2) r.

(** A run of the outer loop: it ends with the table, or at the first
    domain whose inner loop fails. *)
Inductive DomsRun (client : Client URL) (devices : list Device)
  : list (string * list string) → SplitDNSRequest → list Event →
    result SplitDNSRequest → Prop :=
| DomsDone splitDNS :
    DomsRun client devices [] splitDNS [] (Ok splitDNS)
| DomsAbort domain nameservers rest splitDNS t e :
    NssRun client devices domain nameservers [] t (Err e) →
    DomsRun client devices ((domain, nameservers) :: rest) splitDNS t (Err e)
| DomsNext domain nameservers rest splitDNS t1 resolved t2 r :
    NssRun client devices domain nameservers [] t1 (Ok resolved) →
    DomsRun client devices rest (<[domain := resolved]> splitDNS) t2 r →
    DomsRun client devices ((domain, nameservers) :: rest) splitDNS (t1 ++ t2) r.

(** ** What the properties count and look for *)

(** Some nameserver of some domain has the [device:] prefix. *)
Definition hasDeviceRef (entries : list (string * list string)) : Prop :=
  ∃ domain nameservers ns,
    (domain, nameservers) ∈ entries ∧ ns ∈ nameservers ∧
    HasPrefix ns "device:" = true.

(** The events the resolution of nameserver [ns] of [domain] can leave. *)
Inductive NsEvent (client : Client URL) (devices : list Device) (domain ns : string)
  : Event → Prop :=
| NsEvResolvingService :
    HasPrefix ns "svc:" = true →
    NsEvent client devices domain ns (EvLog (LogResolvingService ns domain))
| NsEvHTTPDo hc req r :
    HasPrefix ns "svc:" = true →
    Method req = "GET" →
    ReqURL req = serviceURL client ns →
    NsEvent client devices domain ns (EvHTTPDo hc req r)
| NsEvResolvedService ip :
    HasPrefix ns "svc:" = true →
    NsEvent client devices domain ns (EvLog (LogResolvedService ns ip))
| NsEvResolvingDevice :
    HasPrefix ns "svc:" = false → HasPrefix ns "device:" = true →
    NsEvent client devices domain ns
      (EvLog (LogResolvingDevice (TrimPrefix ns "device:") domain))
| NsEvResolvedDevice ip :
    HasPrefix ns "svc:" = false → HasPrefix ns "device:" = true →
    getDeviceIP (TrimPrefix ns "device:") devices = Ok ip →
    NsEvent client devices domain ns
      (EvLog (LogResolvedDevice (TrimPrefix ns "device:") ip)).

(** The events of each kind. *)
Definition isServiceLookup (ev : Event) : bool :=
  match ev with EvHTTPDo _ _ _ => true | _ => false end.

(** The number of [httpClient.Do] calls in a trace. *)
Definition serviceLookups (t : list Event) : nat :=
  length (List.filter isServiceLookup t).

(** The number of [svc:] nameservers of one domain, and of a list of
    entries. *)
Definition svcRefs (nameservers : list string) : nat :=
  length (List.filter (fun ns => HasPrefix ns "svc:") nameservers).

Definition svcOccurrences (entries : list (string * list string)) : nat :=
  sum_list_with (fun entry => svcRefs entry.2) entries.

(** Address [ip] is what nameserver [ns] resolves to, given the device
    list and the lookups of trace [t]: a literal is itself, a device
    reference is the answer of [getDeviceIP] on the name without its
    prefix, a service reference is the answer to a lookup of [t] whose
    URL is the one of [ns]. *)
Definition resolvedAs (client : Client URL) (devices : list Device)
    (t : list Event) (ns ip : string) : Prop :=
  if HasPrefix ns "svc:" then
    ∃ hc req r,
      EvHTTPDo hc req r ∈ t ∧ ReqURL req = serviceURL client ns ∧
      serviceAnswer ns r = Ok ip
  else if HasPrefix ns "device:" then
    getDeviceIP (TrimPrefix ns "device:") devices = Ok ip
  else ip = ns.

(** The same, on the map: some nameserver of some domain of [cfg] has
    the [device:] prefix. *)
Definition configHasDeviceRef (cfg : Config) : Prop :=
  ∃ domain nameservers ns,
    cfg !! domain = Some nameservers ∧ ns ∈ nameservers ∧
    HasPrefix ns "device:" = true.

(** The device list the loops of a pass work with: the one fetched, or
    the nil slice. *)
Definition fetchedDevices (t : list Event) : list Device :=
  match t with
  | EvListDevices (Ok devices) :: _ => devices
  | _ => []
  end.

Definition isDeviceFetch (ev : Event) : bool :=
  match ev with EvListDevices _ => true | _ => false end.

(** The number of [client.Devices().List] calls in a trace. *)
Definition deviceFetches (t : list Event) : nat :=
  length (List.filter isDeviceFetch t).

Definition isSubmission (ev : Event) : bool :=
  match ev with EvSetSplitDNS _ _ => true | _ => false end.

(** The log line that ends a cycle of the daemon: the success line of
    [updateDNS] or the error line of [runUpdate]. *)
Definition isCycleEnd (ev : Event) : bool :=
  match ev with
  | EvLog LogSuccess | EvLog (LogErrorUpdatingDNS _) => true
  | _ => false
  end.

(** The number of cycles of the daemon that have ended in a trace. *)
Definition cyclesEnded (t : list Event) : nat :=
  length (List.filter isCycleEnd t).

(** The line [updateDNS] logs for one entry of the table. *)
Definition entryLog (entry : string * list string) : Event :=
  EvLog (LogEntry entry.1 entry.2).

End Vocabulary.

(** * More to observe in a trace *)

Section Observations.
Context {World URL : Type} `{!Env World URL}.
Local Open Scope list_scope.
Local Open Scope nat_scope.

Definition isFileRead (ev : Event) : bool :=
  match ev with EvReadFile _ _ => true | _ => false end.

(** The number of [os.ReadFile] calls in a trace. *)
Definition fileReads (t : list Event) : nat :=
  length (List.filter isFileRead t).

(** The number of [SetSplitDNS] calls in a trace. *)
Definition submissions (t : list Event) : nat :=
  length (List.filter isSubmission t).

(** A call to the remote API: the device list, a service lookup, the
    submission of the table. *)
Definition isRemoteCall (ev : Event) : bool :=
  match ev with
  | EvListDevices _ | EvHTTPDo _ _ _ | EvSetSplitDNS _ _ => true
  | _ => false
  end.





(** What a nameserver without the [svc:] prefix resolves to, with a
    given device list: nothing remote is asked. *)
Definition resolveLocal (devices : list Device) (ns : string) : option string :=
  if HasPrefix ns "device:" then
    match getDeviceIP (TrimPrefix ns "device:") devices with
    | Ok ip => Some ip
    | Err _ => None
    end
  else Some ns.

(** Error [e] names nameserver [ns]: it is the error of resolving the
    service [ns], or the error of resolving the device [ns] refers to,
    for one of the two reasons [getDeviceIP] has. *)
Definition blames (ns : string) (e : error) : Prop :=
  (HasPrefix ns "svc:" = true ∧ ∃ cause, e = ErrResolvingService ns cause) ∨
  (HasPrefix ns "device:" = true ∧
   let deviceName := TrimPrefix ns "device:" in
   e = ErrResolvingDevice deviceName (ErrDeviceNotFound deviceName) ∨
   e = ErrResolvingDevice deviceName (ErrDeviceNoAddrs deviceName)).

End Observations.

(** * A small world to run the program in *)

(** An outside world without state: the device list, the answer to a
    service lookup, the decoder of the answer's body and the outcome of
    the submission are fixed; a base URL starting with [://] does not
    parse; the config file holds [fileConfig]; maps are walked in the
    order of [map_to_list]. *)
Definition fixedEnv (devices : result (list Device))
    (respond : Request → result Response)
    (decode : string → result ServiceInfo)
    (fileConfig : result Config)
    (submit : option error) : Env unit string := {|
  url_Parse s :=
    if HasPrefix s "://" then Err (ErrExternal "missing protocol scheme") else Ok s;
  URL_String u := u;
  http_NewRequest_error _ := None;
  json_Decode_ServiceInfo := decode;
  json_Unmarshal_Config _ := fileConfig;
  os_ReadFile _ w := (w, Ok "config.json");
  Devices_List _ w := (w, devices);
  HTTPClient_Do _ req w := (w, respond req);
  DNS_SetSplitDNS _ _ w := (w, submit);
  map_range m w := (w, map_to_list m);
  map_range_perm m w := reflexivity (map_to_list m)
|}.

(** The body of an answer is the one address of the service, or is
    empty for a service without addresses. *)
Definition decodeOneAddr (body : string) : result ServiceInfo :=
  Ok (mkServiceInfo "svc" (if String.eqb body "" then [] else [body])).

Definition respondNotFound (req : Request) : result Response :=
  Ok (mkResponse 404 "").

Definition respondGateway (req : Request) : result Response :=
  Ok (mkResponse 200 "100.64.0.1").

Definition respondNoAddrs (req : Request) : result Response :=
  Ok (mkResponse 200 "").

Definition testClient : Client string :=
  mkClient "test" "https://api.tailscale.com" "test-key" None.

Definition router : Device :=
  mkDevice "my-router.example.ts.net" "my-router" ["100.64.0.5"; "fd7a::5"].

(** Two devices that both answer to [gw]: the first by the dotted
    prefix of its display name, the second by its hostname. *)
Definition gwByName : Device := mkDevice "gw.example.ts.net" "other" ["100.64.0.1"].
Definition gwByHostname : Device := mkDevice "gw-2.example.ts.net" "gw" ["100.64.0.2"].

Definition cfgLiteral : Config :=
  <["direct.example.com" := ["192.168.1.1"]]>
    (<["multi.example.com" := ["192.168.1.1"; "192.168.1.2"]]> ∅).

Definition cfgTwoServices : Config :=
  <["example.com" := ["svc:my-gateway"; "svc:other-gateway"]]> ∅.

Definition cfgSameServiceTwice : Config :=
  <["example.com" := ["svc:my-gateway"; "svc:my-gateway"]]> ∅.

Definition cfgRouter : Config :=
  <["internal.example.com" := ["192.168.1.1"; "device:my-router"]]> ∅.

Definition cfgTwoDevices : Config :=
  <["internal.example.com" := ["device:my-router"; "device:my-router"]]> ∅.

Definition envNotFound : Env unit string :=
  fixedEnv (Ok [router]) respondNotFound decodeOneAddr (Ok cfgTwoServices) None.

Definition envGateway : Env unit string :=
  fixedEnv (Ok [router]) respondGateway decodeOneAddr (Ok cfgSameServiceTwice) None.

Definition envNoRouter : Env unit string :=
  fixedEnv (Ok [gwByName]) respondGateway decodeOneAddr (Ok cfgRouter) None.

Definition daemonFlags : Flags :=
  mkFlags "/config.json" "-" "tskey-api-test" "" "" "https://api.tailscale.com"
    300000000000.

Definition oneShotFlags : Flags :=
  mkFlags "/config.json" "-" "tskey-api-test" "" "" "https://api.tailscale.com" 0.

Definition badURLFlags : Flags :=
  mkFlags "/config.json" "-" "tskey-api-test" "" "" "://invalid-url" 0.

(** What [cfgRouter] resolves to when [router] is among the devices. *)
Definition tableRouter : SplitDNSRequest :=
  <["internal.example.com" := ["192.168.1.1"; "100.64.0.5"]]> ∅.

(** The client [createClient] builds from an OAuth client id and
    secret. *)
Definition oauthClient : Client string :=
  mkClient "example.com" "https://api.tailscale.com" ""
    (Some (OAuthHTTPClient
             (mkOAuthConfig "test-client-id" "test-client-secret"
                "https://api.tailscale.com/api/v2/oauth/token"))).

(** * Properties *)

Section Runs.
Context {World URL : Type} `{!Env World URL}.
Local Open Scope list_scope.
Local Open Scope nat_scope.

(** ** Every run is one of the relation *)

(** The rest of [getServiceIP] after the answer [resp]: status test,
    decoding, first address. *)
Ltac after_answer :=
  unfold serviceAnswer, liftResult, fail, ret;
  destruct (negb _); [done|];
  destruct (json_Decode_ServiceInfo _) as [svcInfo|]; [|done];
  simpl; by destruct (Addrs svcInfo).

Lemma getServiceIP_run client serviceName w :
  SvcRun client serviceName
    (out_trace (getServiceIP client serviceName w))
    (out_result (getServiceIP client serviceName w)).
Proof.
  unfold getServiceIP.
  destruct (http_NewRequest_error _) as [err|] eqn:Hreq; [by apply SvcNoRequest|].
  unfold bind.
  destruct (String.eqb_spec (APIKey client) "") as [Hkey|Hkey]; simpl.
  - destruct (HTTP client) as [hc|] eqn:Hhttp; simpl; [|by apply SvcNoAuth].
    unfold httpDo. destruct (HTTPClient_Do _ _ _) as [w1 [resp|e]]; simpl.
    + replace (out_result _) with (serviceAnswer serviceName (Ok resp))
        by after_answer.
      replace (out_trace _) with
        [EvHTTPDo hc (mkRequest "GET" (serviceURL client serviceName) None) (Ok resp)]
        by after_answer.
      by apply SvcAsked.
    + by apply (SvcAsked _ _ _ _ (Err e)).
  - unfold httpDo. destruct (HTTPClient_Do _ _ _) as [w1 [resp|e]]; simpl.
    + replace (out_result _) with (serviceAnswer serviceName (Ok resp))
        by after_answer.
      replace (out_trace _) with
        [EvHTTPDo DefaultHTTPClient
           (mkRequest "GET" (serviceURL client serviceName) (Some (APIKey client, "")))
           (Ok resp)]
        by after_answer.
      by apply SvcAsked.
    + by apply (SvcAsked _ _ _ _ (Err e)).
Qed.

Lemma resolveNameserver_run client devices domain ns w :
  NsRun client devices domain ns
    (out_trace (resolveNameserver client devices domain ns w))
    (out_result (resolveNameserver client devices domain ns w)).
Proof.
  unfold resolveNameserver.
  destruct (HasPrefix ns "svc:") eqn:Hsvc.
  - pose proof (getServiceIP_run client ns w) as Hrun.
    unfold bind, wrapErr, log, emit, ret.
    destruct (getServiceIP client ns w) as [w1 t1 [ip|e]]; simpl in *.
    + by apply NsServiceOk.
    + rewrite ?app_nil_r. by apply NsServiceErr.
  - destruct (HasPrefix ns "device:") eqn:Hdev.
    + unfold bind, wrapErr, liftResult, log, emit, ret.
      destruct (getDeviceIP _ devices) as [ip|e] eqn:Hget; simpl.
      * by apply NsDeviceOk.
      * by apply NsDeviceErr.
    + by apply NsLiteral.
Qed.

Lemma resolveNameservers_run client devices domain nameservers resolved w :
  NssRun client devices domain nameservers resolved
    (out_trace (resolveNameservers client devices domain nameservers resolved w))
    (out_result (resolveNameservers client devices domain nameservers resolved w)).
Proof.
  revert resolved w.
  induction nameservers as [|ns rest IH]; intros resolved w; simpl.
  - apply NssDone.
  - pose proof (resolveNameserver_run client devices domain ns w) as Hns.
    unfold bind.
    destruct (resolveNameserver client devices domain ns w) as [w1 t1 [ip|e]];
      simpl in *.
    + specialize (IH (resolved ++ [ip]) w1).
      destruct (resolveNameservers _ _ _ rest _ w1) as [w2 t2 r]; simpl in *.
      by eapply NssNext.
    + by apply NssAbort.
Qed.

Lemma resolveDomains_run client devices order splitDNS w :
  DomsRun client devices order splitDNS
    (out_trace (resolveDomains client devices order splitDNS w))
    (out_result (resolveDomains client devices order splitDNS w)).
Proof.
  revert splitDNS w.
  induction order as [|[domain nameservers] rest IH]; intros splitDNS w; simpl.
  - apply DomsDone.
  - pose proof (resolveNameservers_run client devices domain nameservers [] w) as Hd.
    unfold bind.
    destruct (resolveNameservers client devices domain nameservers [] w)
      as [w1 t1 [resolved|e]]; simpl in *.
    + specialize (IH (<[domain := resolved]> splitDNS) w1).
      destruct (resolveDomains _ _ rest _ w1) as [w2 t2 r]; simpl in *.
      by eapply DomsNext.
    + by apply DomsAbort.
Qed.

(** ** The scan before the fetch *)

Lemma scanNameservers_true nameservers :
  scanNameservers nameservers = true ↔
  ∃ ns, ns ∈ nameservers ∧ HasPrefix ns "device:" = true.
Proof.
  induction nameservers as [|ns rest IH]; simpl.
  - split; [done|]. intros (ns & Hin & _). by apply elem_of_nil in Hin.
  - destruct (HasPrefix ns "device:") eqn:Hns.
    + split; [|done]. intros _. exists ns. split; [left|done].
    + rewrite IH. split.
      * intros (ns' & Hin & Hp). exists ns'. split; [by right|done].
      * intros (ns' & Hin & Hp). apply elem_of_cons in Hin as [->|Hin];
          [congruence|by exists ns'].
Qed.

Lemma scanConfig_true order :
  scanConfig order = true ↔ hasDeviceRef order.
Proof.
  unfold hasDeviceRef.
  induction order as [|[domain nameservers] rest IH]; simpl.
  - split; [done|]. intros (d & nss & ns & Hin & _). by apply elem_of_nil in Hin.
  - destruct (scanNameservers nameservers) eqn:Hscan.
    + split; [|done]. intros _.
      apply scanNameservers_true in Hscan as (ns & Hin & Hp).
      exists domain, nameservers, ns. split; [left|done].
    + rewrite IH. split.
      * intros (d & nss & ns & Hin & Hns & Hp).
        exists d, nss, ns. split; [by right|done].
      * intros (d & nss & ns & Hin & Hns & Hp).
        apply elem_of_cons in Hin as [Heq|Hin].
        -- inversion Heq; subst.
           assert (scanNameservers nameservers = true) as Hc
             by (apply scanNameservers_true; by exists ns).
           congruence.
        -- by exists d, nss, ns.
Qed.

Lemma hasDeviceRef_perm l1 l2 :
  l1 ≡ₚ l2 → hasDeviceRef l1 → hasDeviceRef l2.
Proof.
  intros Hperm (d & nss & ns & Hin & Hns & Hp).
  exists d, nss, ns. by rewrite <- Hperm.
Qed.

(** ** Where each event of the loops comes from *)

Lemma NsRun_events client devices domain ns t r ev :
  NsRun client devices domain ns t r → ev ∈ t →
  NsEvent client devices domain ns ev.
Proof.
  intros Hrun Hin. destruct Hrun as [? ?|ip ? ? ?|e ? ? ?|t ip ? Hsvc|t e ? Hsvc].
  - by apply elem_of_nil in Hin.
  - apply elem_of_cons in Hin as [->|Hin]; [by constructor|].
    apply list_elem_of_singleton in Hin as ->. by constructor.
  - apply list_elem_of_singleton in Hin as ->. by constructor.
  - apply elem_of_cons in Hin as [->|Hin]; [by constructor|].
    apply elem_of_app in Hin as [Hin|Hin].
    + inversion Hsvc; subst; try by apply elem_of_nil in Hin.
      apply list_elem_of_singleton in Hin as ->. by constructor.
    + apply list_elem_of_singleton in Hin as ->. by constructor.
  - apply elem_of_cons in Hin as [->|Hin]; [by constructor|].
    inversion Hsvc; subst; try by apply elem_of_nil in Hin.
    apply list_elem_of_singleton in Hin as ->. by constructor.
Qed.

Lemma NssRun_events client devices domain nameservers resolved t r ev :
  NssRun client devices domain nameservers resolved t r → ev ∈ t →
  ∃ ns, ns ∈ nameservers ∧ NsEvent client devices domain ns ev.
Proof.
  induction 1 as [|ns rest resolved t e Hns|ns rest resolved t1 ip t2 r Hns _ IH];
    intros Hin.
  - by apply elem_of_nil in Hin.
  - exists ns. split; [left|by eapply NsRun_events].
  - apply elem_of_app in Hin as [Hin|Hin].
    + exists ns. split; [left|by eapply NsRun_events].
    + destruct (IH Hin) as (ns' & Hin' & Hev). exists ns'. split; [by right|done].
Qed.

Lemma DomsRun_events client devices order splitDNS t r ev :
  DomsRun client devices order splitDNS t r → ev ∈ t →
  ∃ domain nameservers ns,
    (domain, nameservers) ∈ order ∧ ns ∈ nameservers ∧
    NsEvent client devices domain ns ev.
Proof.
  induction 1 as [|d nss rest acc t e Hd|d nss rest acc t1 ips t2 r Hd _ IH];
    intros Hin.
  - by apply elem_of_nil in Hin.
  - destruct (NssRun_events _ _ _ _ _ _ _ _ Hd Hin) as (ns & Hns & Hev).
    exists d, nss, ns. split; [left|done].
  - apply elem_of_app in Hin as [Hin|Hin].
    + destruct (NssRun_events _ _ _ _ _ _ _ _ Hd Hin) as (ns & Hns & Hev).
      exists d, nss, ns. split; [left|done].
    + destruct (IH Hin) as (d' & nss' & ns & Hin' & Hns & Hev).
      exists d', nss', ns. split; [by right|done].
Qed.

(** ** Counting the service lookups *)

Lemma serviceLookups_app t1 t2 :
  serviceLookups (t1 ++ t2) = serviceLookups t1 + serviceLookups t2.
Proof. unfold serviceLookups. by rewrite List.filter_app, length_app. Qed.

Lemma SvcRun_ok_inv client serviceName t ip :
  SvcRun client serviceName t (Ok ip) →
  ∃ hc req r,
    t = [EvHTTPDo hc req r] ∧ Method req = "GET" ∧
    ReqURL req = serviceURL client serviceName ∧
    serviceAnswer serviceName r = Ok ip.
Proof. inversion 1; subst. by exists hc, req, r. Qed.

Lemma SvcRun_lookups client serviceName t r :
  SvcRun client serviceName t r → serviceLookups t ≤ 1.
Proof. destruct 1; unfold serviceLookups; simpl; lia. Qed.

Lemma NsRun_lookups client devices domain ns t r :
  NsRun client devices domain ns t r →
  serviceLookups t ≤ svcRefs [ns] ∧
  (is_ok r = true → serviceLookups t = svcRefs [ns]).
Proof.
  destruct 1 as [Hs ?|ip Hs ? ?|e Hs ? ?|t ip Hs Hsvc|t e Hs Hsvc];
    unfold svcRefs; simpl; rewrite Hs; simpl; try done.
  - apply SvcRun_ok_inv in Hsvc as (hc & req & r & -> & _). done.
  - apply SvcRun_lookups in Hsvc.
    change (serviceLookups (EvLog (LogResolvingService ns domain) :: t))
      with (serviceLookups t).
    split; [lia|done].
Qed.

Lemma NssRun_lookups client devices domain nameservers resolved t r :
  NssRun client devices domain nameservers resolved t r →
  serviceLookups t ≤ svcRefs nameservers ∧
  (is_ok r = true → serviceLookups t = svcRefs nameservers).
Proof.
  induction 1 as [|ns rest resolved t e Hns|ns rest resolved t1 ip t2 r Hns _ IH].
  - done.
  - apply NsRun_lookups in Hns as [Hle _]. split; [|done].
    revert Hle. unfold svcRefs. simpl. destruct (HasPrefix ns "svc:"); simpl; lia.
  - apply NsRun_lookups in Hns as [_ Heq]. specialize (Heq eq_refl).
    rewrite serviceLookups_app, Heq. destruct IH as [IHle IHeq].
    replace (svcRefs (ns :: rest)) with (svcRefs [ns] + svcRefs rest)
      by (unfold svcRefs; simpl; by destruct (HasPrefix ns "svc:")).
    split; [lia|]. intros Hok. rewrite (IHeq Hok). done.
Qed.

Lemma DomsRun_lookups client devices order splitDNS t r :
  DomsRun client devices order splitDNS t r →
  serviceLookups t ≤ svcOccurrences order ∧
  (is_ok r = true → serviceLookups t = svcOccurrences order).
Proof.
  induction 1 as [|d nss rest acc t e Hd|d nss rest acc t1 ips t2 r Hd _ IH].
  - done.
  - apply NssRun_lookups in Hd as [Hle _]. split; [|done].
    unfold svcOccurrences. simpl. lia.
  - apply NssRun_lookups in Hd as [_ Heq]. specialize (Heq eq_refl).
    rewrite serviceLookups_app, Heq. destruct IH as [IHle IHeq].
    unfold svcOccurrences in *. simpl.
    split; [lia|]. intros Hok. by rewrite (IHeq Hok).
Qed.

(** ** A lookup that was answered badly ends the loops *)





(** ** What a table that was returned holds *)

Lemma resolvedAs_mono client devices t t' ns ip :
  t ⊆ t' → resolvedAs client devices t ns ip → resolvedAs client devices t' ns ip.
Proof.
  unfold resolvedAs. intros Hsub.
  destruct (HasPrefix ns "svc:"); [|done].
  intros (hc & req & r & Hin & Hrest). exists hc, req, r. split; [by apply Hsub|done].
Qed.

Lemma NsRun_resolved client devices domain ns t ip :
  NsRun client devices domain ns t (Ok ip) → resolvedAs client devices t ns ip.
Proof.
  unfold resolvedAs. inversion 1 as [Hs Hd|ip' Hs Hd Hg| |t' ip' Hs Hsvc|]; subst;
    rewrite Hs; try rewrite Hd; try done.
  apply SvcRun_ok_inv in Hsvc as (hc & req & r & -> & _ & Hurl & Hans).
  exists hc, req, r. split; [|done]. right. left.
Qed.

Lemma NssRun_resolved client devices domain nameservers resolved t r :
  NssRun client devices domain nameservers resolved t r →
  ∀ ips, r = Ok ips →
  ∃ new, ips = resolved ++ new ∧ Forall2 (resolvedAs client devices t) nameservers new.
Proof.
  induction 1 as [|ns rest resolved t e Hns|ns rest resolved t1 ip t2 r Hns _ IH];
    intros ips Hr.
  - inversion Hr; subst. exists []. by rewrite app_nil_r.
  - done.
  - destruct (IH ips Hr) as (new & -> & Hall).
    exists (ip :: new). split; [by rewrite <- app_assoc|].
    constructor.
    + apply (resolvedAs_mono _ _ t1); [intros ? ?; apply elem_of_app; auto|by apply (NsRun_resolved _ _ domain)].
    + eapply Forall2_impl; [exact Hall|].
      intros ns' ip'. apply resolvedAs_mono. intros ? ?. apply elem_of_app. auto.
Qed.

Lemma DomsRun_table client devices order splitDNS t r :
  DomsRun client devices order splitDNS t r →
  NoDup order.*1 →
  ∀ table, r = Ok table →
  (∀ domain, domain ∉ order.*1 → table !! domain = splitDNS !! domain) ∧
  (∀ domain nameservers, (domain, nameservers) ∈ order →
     ∃ ips, table !! domain = Some ips ∧
            Forall2 (resolvedAs client devices t) nameservers ips).
Proof.
  induction 1 as [|d nss rest acc t e Hd|d nss rest acc t1 ips t2 r Hd _ IH];
    intros Hnodup table Hr.
  - inversion Hr; subst. split; [done|].
    intros domain nameservers Hin. by apply elem_of_nil in Hin.
  - done.
  - simpl in Hnodup. apply NoDup_cons in Hnodup as [Hfresh Hnodup].
    destruct (IH Hnodup table Hr) as [Hout Hin].
    destruct (NssRun_resolved _ _ _ _ _ _ _ Hd ips eq_refl) as (new & Hnew & Hall).
    simpl in Hnew. subst new.
    split.
    + intros domain Hdom. simpl in Hdom.
      apply not_elem_of_cons in Hdom as [Hne Hdom].
      rewrite (Hout domain Hdom). by rewrite lookup_insert_ne.
    + intros domain nameservers Hmem.
      apply elem_of_cons in Hmem as [Heq|Hmem].
      * inversion Heq; subst. exists ips. split.
        -- rewrite (Hout d Hfresh). by rewrite lookup_insert_eq.
        -- eapply Forall2_impl; [exact Hall|].
           intros ns' ip'. apply resolvedAs_mono. intros ? ?. apply elem_of_app. auto.
      * destruct (Hin domain nameservers Hmem) as (ips' & Hlook & Hall').
        exists ips'. split; [done|].
        eapply Forall2_impl; [exact Hall'|].
        intros ns' ip'. apply resolvedAs_mono. intros ? ?. apply elem_of_app. auto.
Qed.

(** ** The pass as a whole *)

Lemma configHasDeviceRef_entries cfg :
  configHasDeviceRef cfg ↔ hasDeviceRef (map_to_list cfg).
Proof.
  unfold configHasDeviceRef, hasDeviceRef.
  split; intros (d & nss & ns & Hd & Hrest); exists d, nss, ns;
    (split; [by apply elem_of_map_to_list|done]).
Qed.

Lemma order_lookup (cfg : Config) order domain nameservers :
  order ≡ₚ map_to_list cfg →
  (domain, nameservers) ∈ order ↔ cfg !! domain = Some nameservers.
Proof. intros ->. apply elem_of_map_to_list. Qed.

Lemma order_NoDup (cfg : Config) order :
  order ≡ₚ map_to_list cfg → NoDup order.*1.
Proof. intros ->. apply NoDup_fst_map_to_list. Qed.

Lemma order_absent (cfg : Config) order domain :
  order ≡ₚ map_to_list cfg → cfg !! domain = None → domain ∉ order.*1.
Proof.
  intros Hperm Hnone Hin. apply list_elem_of_fmap in Hin as ([d nss] & -> & Hin).
  apply (order_lookup cfg) in Hin; [|done]. simpl in *. congruence.
Qed.

(** An event of the two resolution loops is a log line of a resolution
    or a service lookup. *)
Lemma NsEvent_kind client devices domain ns ev :
  NsEvent client devices domain ns ev →
  isDeviceFetch ev = false ∧ isSubmission ev = false ∧ isCycleEnd ev = false.
Proof. by destruct 1. Qed.

Lemma filter_none {A} (f : A → bool) (l : list A) :
  (∀ x, x ∈ l → f x = false) → List.filter f l = [].
Proof.
  induction l as [|x l IH]; [done|]. intros Hall. simpl.
  rewrite (Hall x) by left. apply IH. intros y Hy. apply Hall. by right.
Qed.

Lemma DomsRun_no_fetch client devices order splitDNS t r :
  DomsRun client devices order splitDNS t r → deviceFetches t = 0.
Proof.
  intros Hrun. unfold deviceFetches. rewrite filter_none; [done|].
  intros ev Hin.
  destruct (DomsRun_events _ _ _ _ _ _ _ Hrun Hin) as (d & nss & ns & _ & _ & Hev).
  by apply NsEvent_kind in Hev as [? _].
Qed.

Lemma DomsRun_not_fetch client devices order splitDNS t r a :
  DomsRun client devices order splitDNS t r → EvListDevices a ∉ t.
Proof.
  intros Hrun Hin.
  destruct (DomsRun_events _ _ _ _ _ _ _ Hrun Hin) as (d & nss & ns & _ & _ & Hev).
  by apply NsEvent_kind in Hev as [? _].
Qed.

Lemma DomsRun_fetched_nil client devices order splitDNS t r :
  DomsRun client devices order splitDNS t r → fetchedDevices t = [].
Proof.
  intros Hrun. destruct t as [|[| |a| |] t']; try done.
  exfalso. eapply DomsRun_not_fetch; [exact Hrun|left].
Qed.

(** The three ways a pass goes: no [device:] reference and no fetch; a
    fetch that fails; a fetch that succeeds, and the loops run with the
    list it returned. *)
Lemma resolveSplitDNS_cases client cfg w :
  let pass := resolveSplitDNS client cfg w in
  (¬ configHasDeviceRef cfg ∧
   ∃ order w1, order ≡ₚ map_to_list cfg ∧
     out_trace pass = out_trace (resolveDomains client [] order ∅ w1) ∧
     out_result pass = out_result (resolveDomains client [] order ∅ w1)) ∨
  (configHasDeviceRef cfg ∧
   ∃ e, out_trace pass = [EvListDevices (Err e)] ∧
     out_result pass = Err (ErrListingDevices e)) ∨
  (configHasDeviceRef cfg ∧
   ∃ devices order w1, order ≡ₚ map_to_list cfg ∧
     out_trace pass =
       EvListDevices (Ok devices) :: out_trace (resolveDomains client devices order ∅ w1) ∧
     out_result pass = out_result (resolveDomains client devices order ∅ w1)).
Proof.
  unfold resolveSplitDNS, bind, rangeMap.
  pose proof (map_range_perm cfg w) as Hscan.
  destruct (map_range cfg w) as [w1 scanOrder]; simpl in Hscan.
  destruct (scanConfig scanOrder) eqn:Hneeds.
  - apply scanConfig_true in Hneeds.
    apply (hasDeviceRef_perm _ _ Hscan), configHasDeviceRef_entries in Hneeds.
    right. unfold wrapErr, listDevices.
    destruct (Devices_List client w1) as [w2 [devices|e]]; simpl.
    + right. split; [done|].
      pose proof (map_range_perm cfg w2) as Hord.
      destruct (map_range cfg w2) as [w3 order]; simpl in Hord.
      exists devices, order, w3.
      by destruct (resolveDomains client devices order ∅ w3).
    + left. split; [done|]. by exists e.
  - left. split.
    + intros Hhas. apply configHasDeviceRef_entries in Hhas. symmetry in Hscan.
      apply (hasDeviceRef_perm _ _ Hscan), scanConfig_true in Hhas. congruence.
    + simpl.
      pose proof (map_range_perm cfg w1) as Hord.
      destruct (map_range cfg w1) as [w2 order]; simpl in Hord.
      exists order, w2.
      by destruct (resolveDomains client [] order ∅ w2).
Qed.

(** ** The prefixes *)

Lemma substring_all (s : string) : substring 0 (String.length s) s = s.
Proof. induction s as [|c s IH]; simpl; [done|by rewrite IH]. Qed.

(** A string with prefix [p] is [p] followed by what [TrimPrefix]
    leaves. *)
Lemma TrimPrefix_spec (s p : string) :
  HasPrefix s p = true → s = (p ++ TrimPrefix s p)%string.
Proof.
  unfold TrimPrefix. intros Hp. rewrite Hp. unfold HasPrefix in Hp.
  revert s Hp. induction p as [|a p IH]; intros s Hp; simpl.
  - by rewrite Nat.sub_0_r, substring_all.
  - destruct s as [|c s]; [done|]. simpl in *.
    destruct (ascii_dec a c) as [->|]; [|done].
    exact (f_equal (String c) (IH s Hp)).
Qed.

Lemma TrimPrefix_app (p rest : string) :
  TrimPrefix (p ++ rest) p = rest.
Proof.
  assert (HasPrefix (p ++ rest) p = true) as Hp.
  { unfold HasPrefix. induction p as [|a p IH]; [by destruct rest|].
    change (String a p ++ rest)%string with (String a (p ++ rest)%string).
    simpl. by destruct (ascii_dec a a). }
  pose proof (TrimPrefix_spec _ _ Hp) as Heq.
  revert Heq. generalize (TrimPrefix (p ++ rest) p). clear Hp.
  induction p as [|a p IH]; intros s Heq; [symmetry; exact Heq|].
  change (String a (p ++ rest)%string = String a (p ++ s)%string) in Heq.
  inversion Heq. by apply IH.
Qed.

(** No string has both prefixes: the order of the two tests in the
    loop does not matter. *)
Lemma svc_not_device (ns : string) :
  HasPrefix ns "device:" = true → HasPrefix ns "svc:" = false.
Proof.
  unfold HasPrefix. destruct ns as [|c ns]; [done|]. cbn [String.prefix].
  destruct (ascii_dec "d"%char c) as [<-|]; [|done]. intros _.
  by destruct (ascii_dec "s"%char "d"%char).
Qed.

(** The table a pass returns has, for every domain of the config, the
    addresses its nameservers resolved to, in their order, and nothing
    for any other domain. *)
Lemma resolveSplitDNS_table client cfg w table :
  let pass := resolveSplitDNS client cfg w in
  out_result pass = Ok table →
  ∀ domain,
    match cfg !! domain with
    | Some nameservers =>
        ∃ ips, table !! domain = Some ips ∧
          Forall2 (resolvedAs client (fetchedDevices (out_trace pass)) (out_trace pass))
            nameservers ips
    | None => table !! domain = None
    end.
Proof.
  intros pass Hok domain.
  destruct (resolveSplitDNS_cases client cfg w)
    as [(_ & order & w1 & Hperm & Ht & Hr)
       |[(_ & e & _ & Hr)
        |(_ & devices & order & w1 & Hperm & Ht & Hr)]];
    try fold pass in Ht; fold pass in Hr.
  - pose proof (resolveDomains_run client [] order ∅ w1) as Hrun.
    rewrite <- Ht, <- Hr, Hok in Hrun.
    rewrite (DomsRun_fetched_nil _ _ _ _ _ _ Hrun).
    destruct (DomsRun_table _ _ _ _ _ _ Hrun (order_NoDup _ _ Hperm) table eq_refl)
      as [Hout Hin].
    destruct (cfg !! domain) as [nameservers|] eqn:Hdom.
    + apply Hin. by apply (order_lookup cfg).
    + rewrite Hout; [done|]. by apply (order_absent cfg).
  - congruence.
  - pose proof (resolveDomains_run client devices order ∅ w1) as Hrun.
    rewrite <- Hr, Hok in Hrun. rewrite Ht. simpl.
    destruct (DomsRun_table _ _ _ _ _ _ Hrun (order_NoDup _ _ Hperm) table eq_refl)
      as [Hout Hin].
    destruct (cfg !! domain) as [nameservers|] eqn:Hdom.
    + destruct (Hin domain nameservers) as (ips & Hlook & Hall);
        [by apply (order_lookup cfg)|].
      exists ips. split; [done|].
      eapply Forall2_impl; [exact Hall|].
      intros ns ip. apply resolvedAs_mono. intros ev Hev. by right.
    + rewrite Hout; [done|]. by apply (order_absent cfg).
Qed.

(** ** The claims about the resolution pass *)

(** C1 (as amended). [getDeviceIP] walks the device list once and takes
    the first device, in list order, that passes any of the three
    tests (hostname equal, display name equal, display name starting
    with the hostname and a dot); the tests have no precedence over one
    another across devices.  The answer is the first address of that
    device.  When no device passes, or the one found has no address,
    the answer is an error, and a pass that fetched [devices] and has a
    [device:] reference to [hostname] returns an error. *)
Theorem getDeviceIP_first_matching_device
    (client : Client URL) (cfg : Config) (w : World)
    (hostname : string) (devices : list Device) :
  getDeviceIP hostname devices =
    match List.find (deviceMatches hostname) devices with
    | Some device =>
        match Addresses device with
        | [] => Err (ErrDeviceNoAddrs hostname)
        | ip :: _ => Ok ip
        end
    | None => Err (ErrDeviceNotFound hostname)
    end
  ∧ (∀ device,
       deviceMatches hostname device = true ↔
       Hostname device = hostname ∨ Name device = hostname ∨
       HasPrefix (Name device) (hostname ++ ".") = true)
  ∧ (∀ domain nameservers,
       cfg !! domain = Some nameservers →
       ("device:" ++ hostname)%string ∈ nameservers →
       EvListDevices (Ok devices) ∈ out_trace (resolveSplitDNS client cfg w) →
       is_ok (getDeviceIP hostname devices) = false →
       ∃ e, out_result (resolveSplitDNS client cfg w) = Err e).
Proof.
  split; [|split].
  - induction devices as [|device rest IH]; simpl; [done|].
    by destruct (deviceMatches hostname device).
  - intros device. unfold deviceMatches.
    rewrite !orb_true_iff, !String.eqb_eq. tauto.
  - intros domain nameservers Hdom Hns Hfetched Hfail.
    destruct (out_result (resolveSplitDNS client cfg w)) as [table|e] eqn:Hres;
      [|by exists e].
    exfalso.
    pose proof (resolveSplitDNS_table client cfg w table Hres domain) as Htab.
    rewrite Hdom in Htab. destruct Htab as (ips & _ & Hall).
    apply list_elem_of_lookup in Hns as [i Hi].
    destruct (Forall2_lookup_l _ _ _ _ _ Hall Hi) as (ip & _ & Hres').
    unfold resolvedAs in Hres'.
    assert (HasPrefix ("device:" ++ hostname) "device:" = true) as Hp.
    { unfold HasPrefix. simpl. by repeat (destruct (ascii_dec _ _); [|done]);
        destruct hostname. }
    rewrite (svc_not_device _ Hp), Hp, TrimPrefix_app in Hres'.
    destruct (resolveSplitDNS_cases client cfg w)
      as [(_ & order & w1 & _ & Ht & _)
         |[(_ & e & Ht & Hr)
          |(_ & devices' & order & w1 & _ & Ht & _)]].
    + rewrite Ht in Hfetched.
      by eapply DomsRun_not_fetch; [apply resolveDomains_run|exact Hfetched].
    + congruence.
    + rewrite Ht in Hfetched, Hres'. simpl in Hres'.
      apply elem_of_cons in Hfetched as [Heq|Hin].
      * inversion Heq; subst. rewrite Hres' in Hfail. done.
      * by eapply DomsRun_not_fetch; [apply resolveDomains_run|exact Hin].
Qed.

(** C3. In one pass the device list is fetched once when some
    reference of the config has the [device:] prefix, however many do,
    and not at all otherwise; when the fetch fails the pass returns the
    error and resolves nothing. *)
Theorem device_list_fetched_at_most_once
    (client : Client URL) (cfg : Config) (w : World) :
  let pass := resolveSplitDNS client cfg w in
  (configHasDeviceRef cfg → deviceFetches (out_trace pass) = 1) ∧
  (¬ configHasDeviceRef cfg → deviceFetches (out_trace pass) = 0) ∧
  (∀ e, EvListDevices (Err e) ∈ out_trace pass →
        out_result pass = Err (ErrListingDevices e) ∧
        out_trace pass = [EvListDevices (Err e)]).
Proof.
  intros pass.
  destruct (resolveSplitDNS_cases client cfg w)
    as [(Hno & order & w1 & _ & Ht & _)
       |[(Hhas & e & Ht & Hr)
        |(Hhas & devices & order & w1 & _ & Ht & _)]];
    fold pass in Ht; rewrite Ht.
  - pose proof (resolveDomains_run client [] order ∅ w1) as Hrun.
    split; [done|]. split.
    + intros _. by eapply DomsRun_no_fetch.
    + intros e Hin. destruct (DomsRun_not_fetch _ _ _ _ _ _ _ Hrun Hin).
  - split; [done|]. split; [done|].
    intros e' Hin. apply list_elem_of_singleton in Hin. inversion Hin; subst.
    by fold pass in Hr.
  - pose proof (resolveDomains_run client devices order ∅ w1) as Hrun.
    split; [|split; [done|]].
    + intros _. unfold deviceFetches. simpl.
      f_equal. by eapply DomsRun_no_fetch.
    + intros e Hin. apply elem_of_cons in Hin as [Heq|Hin]; [done|].
      destruct (DomsRun_not_fetch _ _ _ _ _ _ _ Hrun Hin).
Qed.

(** C8 (as amended). A pass makes at most one service lookup for each
    occurrence of a [svc:] reference in the config, and exactly one for
    each, repeated references included, when it returns a table.  (A
    pass that stops at an error leaves the references after the failure
    without a lookup.) *)
Theorem service_lookups_per_occurrence
    (client : Client URL) (cfg : Config) (w : World) :
  let pass := resolveSplitDNS client cfg w in
  serviceLookups (out_trace pass) ≤ svcOccurrences (map_to_list cfg) ∧
  (is_ok (out_result pass) = true →
   serviceLookups (out_trace pass) = svcOccurrences (map_to_list cfg)).
Proof.
  intros pass.
  destruct (resolveSplitDNS_cases client cfg w)
    as [(_ & order & w1 & Hperm & Ht & Hr)
       |[(_ & e & Ht & Hr)
        |(_ & devices & order & w1 & Hperm & Ht & Hr)]];
    fold pass in Ht, Hr; rewrite Ht, Hr.
  - unfold svcOccurrences. rewrite <- Hperm.
    exact (DomsRun_lookups _ _ _ _ _ _ (resolveDomains_run client [] order ∅ w1)).
  - split; [|done]. unfold serviceLookups. simpl. lia.
  - unfold svcOccurrences. rewrite <- Hperm.
    change (serviceLookups (EvListDevices (Ok devices) :: ?t))
      with (serviceLookups t).
    exact (DomsRun_lookups _ _ _ _ _ _ (resolveDomains_run client devices order ∅ w1)).
Qed.

(** C10. The scan and the loop test the same thing: the scan finds a
    reference exactly when some reference takes the device branch of
    the loop.  So whenever the loop resolves a device, the pass has
    fetched the device list with success and the loops run with that
    list; and a config without a [device:] reference never gets to the
    device branch. *)
Theorem device_resolution_after_fetch
    (client : Client URL) (cfg : Config) (w : World) :
  let pass := resolveSplitDNS client cfg w in
  (∀ order, order ≡ₚ map_to_list cfg →
     (scanConfig order = true ↔
      ∃ domain nameservers ns,
        cfg !! domain = Some nameservers ∧ ns ∈ nameservers ∧
        HasPrefix ns "svc:" = false ∧ HasPrefix ns "device:" = true)) ∧
  (∀ deviceName domain,
     EvLog (LogResolvingDevice deviceName domain) ∈ out_trace pass →
     ∃ devices order w1,
       order ≡ₚ map_to_list cfg ∧
       out_trace pass =
         EvListDevices (Ok devices)
           :: out_trace (resolveDomains client devices order ∅ w1) ∧
       out_result pass = out_result (resolveDomains client devices order ∅ w1)) ∧
  (¬ configHasDeviceRef cfg →
   ∀ deviceName domain,
     EvLog (LogResolvingDevice deviceName domain) ∉ out_trace pass).
Proof.
  intros pass.
  assert (∀ devices order w1 deviceName domain,
            order ≡ₚ map_to_list cfg →
            EvLog (LogResolvingDevice deviceName domain)
              ∈ out_trace (resolveDomains client devices order ∅ w1) →
            configHasDeviceRef cfg) as Hbranch.
  { intros devices order w1 deviceName domain Hperm Hin.
    destruct (DomsRun_events _ _ _ _ _ _ _ (resolveDomains_run _ _ _ _ _) Hin)
      as (d & nss & ns & Hd & Hns & Hev).
    exists d, nss, ns. split; [by apply (order_lookup cfg order)|].
    split; [done|]. by inversion Hev. }
  split; [|split].
  - intros order Hperm. rewrite scanConfig_true. split.
    + intros (d & nss & ns & Hd & Hns & Hp). exists d, nss, ns.
      split; [by apply (order_lookup cfg order)|].
      by split; [|split; [apply svc_not_device|]].
    + intros (d & nss & ns & Hd & Hns & _ & Hp). exists d, nss, ns.
      split; [by apply (order_lookup cfg order)|done].
  - intros deviceName domain Hin.
    destruct (resolveSplitDNS_cases client cfg w)
      as [(Hno & order & w1 & Hperm & Ht & _)
         |[(_ & e & Ht & _)
          |(_ & devices & order & w1 & Hperm & Ht & Hr)]];
      fold pass in Ht; rewrite Ht in Hin.
    + destruct Hno. by eapply Hbranch.
    + by apply list_elem_of_singleton in Hin.
    + by exists devices, order, w1.
  - intros Hno deviceName domain Hin.
    destruct (resolveSplitDNS_cases client cfg w)
      as [(_ & order & w1 & Hperm & Ht & _)|[(Hhas & _)|(Hhas & _)]]; [|done..].
    fold pass in Ht; rewrite Ht in Hin. destruct Hno. by eapply Hbranch.
Qed.



(** ** [updateDNS] *)

Lemma logEntries_run order (w : World) :
  logEntries order w = mkOut w (entryLog <$> order) (Ok tt).
Proof.
  induction order as [|[domain nameservers] rest IH]; simpl; [done|].
  unfold bind, log, emit. by rewrite IH.
Qed.

(** A cycle is its pass and, when the pass returned a table, the log
    lines and the one submission of that table. *)
Lemma updateDNS_cases client cfg w :
  let pass := resolveSplitDNS client cfg w in
  let cycle := updateDNS client cfg w in
  match out_result pass with
  | Err e =>
      out_trace cycle = out_trace pass ∧
      out_result cycle = Err (ErrResolvingServices e)
  | Ok table =>
      ∃ order r,
        order ≡ₚ map_to_list table ∧
        out_trace cycle =
          out_trace pass ++
            EvLog (LogUpdating (size table)) :: (entryLog <$> order) ++
            EvSetSplitDNS table r ::
            match r with None => [EvLog LogSuccess] | Some _ => [] end ∧
        out_result cycle =
          match r with None => Ok tt | Some e => Err (ErrUpdatingSplitDNS e) end
  end.
Proof.
  intros pass cycle. unfold cycle, updateDNS, bind, wrapErr. fold pass.
  destruct pass as [w1 t1 [table|e]]; simpl; [|done].
  unfold rangeMap.
  pose proof (map_range_perm table w1) as Hperm.
  destruct (map_range table w1) as [w2 order]; simpl in Hperm.
  rewrite logEntries_run. unfold setSplitDNS.
  destruct (DNS_SetSplitDNS client table w2) as [w3 [e|]]; simpl.
  - by exists order, (Some e).
  - by exists order, None.
Qed.



Lemma DomsRun_no_submission client devices order splitDNS t r table a :
  DomsRun client devices order splitDNS t r → EvSetSplitDNS table a ∉ t.
Proof.
  intros Hrun Hin.
  destruct (DomsRun_events _ _ _ _ _ _ _ Hrun Hin) as (d & nss & ns & _ & _ & Hev).
  by apply NsEvent_kind in Hev as (_ & ? & _).
Qed.

(** A pass submits nothing itself. *)
Lemma resolveSplitDNS_no_submission client cfg w table a :
  EvSetSplitDNS table a ∉ out_trace (resolveSplitDNS client cfg w).
Proof.
  intros Hin.
  destruct (resolveSplitDNS_cases client cfg w)
    as [(_ & order & w1 & _ & Ht & _)
       |[(_ & e & Ht & _)
        |(_ & devs & order & w1 & _ & Ht & _)]];
    rewrite Ht in Hin.
  - by eapply DomsRun_no_submission; [apply resolveDomains_run|exact Hin].
  - by apply list_elem_of_singleton in Hin.
  - apply elem_of_cons in Hin as [?|Hin]; [done|].
    by eapply DomsRun_no_submission; [apply resolveDomains_run|exact Hin].
Qed.


(** Literal nameservers are appended as they are, and nothing is
    called. *)
Lemma resolveNameservers_literal client devices domain nameservers resolved w :
  (∀ ns, ns ∈ nameservers →
     HasPrefix ns "svc:" = false ∧ HasPrefix ns "device:" = false) →
  resolveNameservers client devices domain nameservers resolved w
  = mkOut w [] (Ok (resolved ++ nameservers)).
Proof.
  revert resolved.
  induction nameservers as [|ns rest IH]; intros resolved Hlit; simpl.
  - by rewrite app_nil_r.
  - destruct (Hlit ns) as [Hs Hd]; [left|].
    unfold bind, resolveNameserver. rewrite Hs, Hd. simpl.
    rewrite IH by (intros ns' Hin; apply Hlit; by right).
    by rewrite <- app_assoc.
Qed.

Lemma resolveDomains_literal client devices order splitDNS w :
  (∀ domain nameservers ns,
     (domain, nameservers) ∈ order → ns ∈ nameservers →
     HasPrefix ns "svc:" = false ∧ HasPrefix ns "device:" = false) →
  out_trace (resolveDomains client devices order splitDNS w) = [] ∧
  is_ok (out_result (resolveDomains client devices order splitDNS w)) = true.
Proof.
  revert splitDNS.
  induction order as [|[domain nameservers] rest IH]; intros splitDNS Hlit; simpl.
  - done.
  - unfold bind. rewrite resolveNameservers_literal
      by (intros ns Hin; apply (Hlit domain nameservers); [left|done]).
    destruct (IH (<[domain:=[] ++ nameservers]> splitDNS)) as [Ht Hr].
    { intros d nss ns Hd. apply (Hlit d nss ns). by right. }
    by destruct (resolveDomains client devices rest _ w).
Qed.

Lemma resolvedAs_literal client devices t nameservers ips :
  (∀ ns, ns ∈ nameservers →
     HasPrefix ns "svc:" = false ∧ HasPrefix ns "device:" = false) →
  Forall2 (resolvedAs client devices t) nameservers ips →
  ips = nameservers.
Proof.
  intros Hlit Hall.
  induction Hall as [|ns ip rest ips Hres _ IH]; [done|].
  destruct (Hlit ns) as [Hs Hd]; [left|].
  unfold resolvedAs in Hres. rewrite Hs, Hd in Hres. subst ip.
  f_equal. apply IH. intros ns' Hin. apply Hlit. by right.
Qed.

(** C5. For a config whose references are all literal (neither prefix),
    the pass returns a table, the table is the config itself: the same
    domains, each with its list of strings as given, in the same order;
    and nothing remote is called. *)
Theorem literal_config_passes_through
    (client : Client URL) (cfg : Config) (w : World) :
  (∀ domain nameservers ns,
     cfg !! domain = Some nameservers → ns ∈ nameservers →
     HasPrefix ns "svc:" = false ∧ HasPrefix ns "device:" = false) →
  out_result (resolveSplitDNS client cfg w) = Ok cfg ∧
  out_trace (resolveSplitDNS client cfg w) = [].
Proof.
  intros Hliteral.
  destruct (resolveSplitDNS_cases client cfg w)
    as [(_ & order & w1 & Hperm & Ht & Hr)
       |[((d & nss & ns & Hd & Hns & Hp) & _)
        |((d & nss & ns & Hd & Hns & Hp) & _)]].
  2, 3: destruct (Hliteral d nss ns Hd Hns); congruence.
  destruct (resolveDomains_literal client [] order ∅ w1) as [Hnil Hok].
  { intros d nss ns Hd. apply (Hliteral d nss ns). by apply (order_lookup cfg order). }
  rewrite Ht, Hnil. split; [|done].
  destruct (out_result (resolveSplitDNS client cfg w)) as [table|e] eqn:Hres;
    [|by rewrite <- Hr in Hok].
  f_equal. apply map_eq. intros domain.
  pose proof (resolveSplitDNS_table client cfg w table Hres domain) as Htab.
  destruct (cfg !! domain) as [nameservers|] eqn:Hdom; [|done].
  destruct Htab as (ips & -> & Hall). f_equal.
  eapply resolvedAs_literal; [|exact Hall].
  intros ns Hns. by apply (Hliteral domain nameservers).
Qed.

(** ** The client factory *)

(** C6. [createClient] fails when the base URL does not parse.  With a
    base URL that parses, the client uses the OAuth client-credentials
    flow, with the token endpoint at the base URL followed by
    [/api/v2/oauth/token], exactly when the client id and the client
    secret are both non-empty; otherwise it uses the API key when that
    is non-empty; otherwise it fails for want of credentials. *)
Theorem createClient_credentials
    (tailnet apiKey clientID clientSecret baseURL : string) (w : World) :
  let run := createClient tailnet apiKey clientID clientSecret baseURL w in
  (∀ err, url_Parse baseURL = Err err →
     out_result run = Err (ErrInvalidBaseURL err)) ∧
  (∀ parsedURL, url_Parse baseURL = Ok parsedURL →
     ((clientID ≠ "" ∧ clientSecret ≠ "") ↔
      ∃ client oauthConfig,
        out_result run = Ok client ∧
        HTTP client = Some (OAuthHTTPClient oauthConfig)) ∧
     (clientID ≠ "" → clientSecret ≠ "" →
      out_result run =
        Ok (mkClient tailnet parsedURL ""
              (Some (OAuthHTTPClient
                       (mkOAuthConfig clientID clientSecret
                          (baseURL ++ "/api/v2/oauth/token")))))) ∧
     (¬ (clientID ≠ "" ∧ clientSecret ≠ "") → apiKey ≠ "" →
      out_result run = Ok (mkClient tailnet parsedURL apiKey None)) ∧
     (¬ (clientID ≠ "" ∧ clientSecret ≠ "") → apiKey = "" →
      out_result run = Err ErrNeedCreds)).
Proof.
  intros run. unfold run, createClient. split.
  - intros err ->. done.
  - intros parsedURL ->.
    destruct (String.eqb_spec clientID "") as [Hid|Hid];
      destruct (String.eqb_spec clientSecret "") as [Hsec|Hsec];
      destruct (String.eqb_spec apiKey "") as [Hkey|Hkey]; simpl;
      (split; [split; [intros [? ?]; try done; eauto
                      |intros (client & oauthConfig & Heq & Hhttp);
                       try (inversion Heq; subst; done)]|]);
      (split; [done|]); (split; [intros Hno ?; try done; destruct Hno; done|]);
      intros Hno ?; try done; destruct Hno; done.
Qed.

(** ** The run loop *)

Lemma cyclesEnded_app t1 t2 :
  cyclesEnded (t1 ++ t2) = cyclesEnded t1 + cyclesEnded t2.
Proof. unfold cyclesEnded. by rewrite List.filter_app, length_app. Qed.

Lemma cyclesEnded_none t :
  (∀ ev, ev ∈ t → isCycleEnd ev = false) → cyclesEnded t = 0.
Proof. intros Hall. unfold cyclesEnded. by rewrite filter_none. Qed.

(** No cycle ends inside a pass. *)
Lemma resolveSplitDNS_no_cycle_end client cfg w :
  cyclesEnded (out_trace (resolveSplitDNS client cfg w)) = 0.
Proof.
  assert (∀ devs order w1,
            cyclesEnded (out_trace (resolveDomains client devs order ∅ w1)) = 0)
    as Hloop.
  { intros devs order w1. apply cyclesEnded_none. intros ev Hin.
    destruct (DomsRun_events _ _ _ _ _ _ _ (resolveDomains_run _ _ _ _ _) Hin)
      as (d & nss & ns & _ & _ & Hev).
    by apply NsEvent_kind in Hev as (_ & _ & ?). }
  destruct (resolveSplitDNS_cases client cfg w)
    as [(_ & order & w1 & _ & -> & _)
       |[(_ & e & -> & _)
        |(_ & devs & order & w1 & _ & -> & _)]]; [apply Hloop|done|].
  change (cyclesEnded (EvListDevices (Ok devs) :: ?t)) with (cyclesEnded t).
  apply Hloop.
Qed.

(** [runUpdate] runs one cycle and never fails: an error of the cycle
    is logged and dropped. *)
Lemma runUpdate_run client cfg w :
  let cycle := updateDNS client cfg w in
  out_result (runUpdate client cfg w) = Ok tt ∧
  out_world (runUpdate client cfg w) = out_world cycle ∧
  out_trace (runUpdate client cfg w) =
    out_trace cycle ++
      match out_result cycle with
      | Ok _ => []
      | Err e => [EvLog (LogErrorUpdatingDNS e)]
      end.
Proof.
  intros cycle. unfold runUpdate, handle. fold cycle.
  by destruct cycle as [w1 t1 [[]|e]].
Qed.

(** Every [runUpdate] ends one cycle: one success line or one error
    line. *)
Lemma runUpdate_one_cycle client cfg w :
  cyclesEnded (out_trace (runUpdate client cfg w)) = 1.
Proof.
  destruct (runUpdate_run client cfg w) as (_ & _ & ->).
  pose proof (updateDNS_cases client cfg w) as Hcases. cbv zeta in Hcases.
  pose proof (resolveSplitDNS_no_cycle_end client cfg w) as Hpass.
  destruct (out_result (resolveSplitDNS client cfg w)) as [table|e].
  - destruct Hcases as (order & r & _ & -> & ->).
    rewrite !cyclesEnded_app, Hpass.
    change (cyclesEnded (EvLog (LogUpdating (size table)) :: ?t))
      with (cyclesEnded t).
    rewrite cyclesEnded_app, (cyclesEnded_none (entryLog <$> order)).
    2:{ intros ev Hin. by apply list_elem_of_fmap in Hin as (entry & -> & _). }
    by destruct r.
  - destruct Hcases as [-> ->]. by rewrite cyclesEnded_app, Hpass.
Qed.

Lemma bind_run {A B} (m : M World A) (k : A → M World B) w a :
  out_result (m w) = Ok a →
  bind m k w =
    mkOut (out_world (k a (out_world (m w))))
      (out_trace (m w) ++ out_trace (k a (out_world (m w))))
      (out_result (k a (out_world (m w)))).
Proof.
  unfold bind. destruct (m w) as [w1 t1 r1]; simpl. intros ->.
  by destruct (k a w1).
Qed.

Lemma runUpdate_bind {B} client cfg (k : M World B) w :
  bind (runUpdate client cfg) (λ _, k) w =
    mkOut (out_world (k (out_world (runUpdate client cfg w))))
      (out_trace (runUpdate client cfg w)
         ++ out_trace (k (out_world (runUpdate client cfg w))))
      (out_result (k (out_world (runUpdate client cfg w)))).
Proof.
  apply (bind_run (runUpdate client cfg) (λ _, k) w tt).
  by destruct (runUpdate_run client cfg w) as [? _].
Qed.

(** The loop over the ticks never fails and never stops early: after
    one more tick it has run one more [runUpdate], from the world the
    ticks before have left. *)
Lemma tickLoop_run client cfg ticks w :
  out_result (tickLoop client cfg ticks w) = Ok tt ∧
  cyclesEnded (out_trace (tickLoop client cfg ticks w)) = ticks.
Proof.
  revert w. induction ticks as [|n IH]; intros w; simpl; [done|].
  rewrite runUpdate_bind. simpl.
  destruct (IH (out_world (runUpdate client cfg w))) as [-> Hn].
  split; [done|]. by rewrite cyclesEnded_app, runUpdate_one_cycle, Hn.
Qed.

Lemma tickLoop_next client cfg ticks w :
  let before := tickLoop client cfg ticks w in
  out_world (tickLoop client cfg (S ticks) w)
    = out_world (runUpdate client cfg (out_world before)) ∧
  out_trace (tickLoop client cfg (S ticks) w)
    = out_trace before ++ out_trace (runUpdate client cfg (out_world before)).
Proof.
  revert w. induction ticks as [|n IH]; intros w.
  - simpl. rewrite runUpdate_bind. simpl. by rewrite app_nil_r.
  - intros before.
    change (tickLoop client cfg (S (S n)) w)
      with (bind (runUpdate client cfg) (λ _, tickLoop client cfg (S n)) w).
    unfold before.
    change (tickLoop client cfg (S n) w)
      with (bind (runUpdate client cfg) (λ _, tickLoop client cfg n) w).
    rewrite !runUpdate_bind. cbn [out_world out_trace].
    destruct (IH (out_world (runUpdate client cfg w))) as [-> ->].
    by rewrite app_assoc.
Qed.

Lemma handle_run {A B} (m : M World A) (onErr : error → M World B)
    (k : A → M World B) w :
  handle m onErr k w =
    let next :=
      match out_result (m w) with
      | Ok a => k a (out_world (m w))
      | Err e => onErr e (out_world (m w))
      end in
    mkOut (out_world next) (out_trace (m w) ++ out_trace next) (out_result next).
Proof.
  unfold handle. destruct (m w) as [w1 t1 [a|e]]; simpl.
  - by destruct (k a w1).
  - by destruct (onErr e w1).
Qed.

Lemma loadConfig_no_cycle_end path w :
  cyclesEnded (out_trace (loadConfig path w)) = 0.
Proof.
  unfold loadConfig, bind, wrapErr, readFile, liftResult.
  destruct (os_ReadFile path w) as [w1 [data|e]]; simpl; [|done].
  by destruct (json_Unmarshal_Config data).
Qed.

Lemma createClient_no_cycle_end tailnet apiKey clientID clientSecret baseURL w :
  cyclesEnded
    (out_trace (createClient tailnet apiKey clientID clientSecret baseURL w)) = 0.
Proof.
  unfold createClient. destruct (url_Parse baseURL); [|done].
  destruct (negb (String.eqb clientID "") && negb (String.eqb clientSecret ""));
    [done|].
  by destruct (negb (String.eqb apiKey "")).
Qed.

(** The daemon branch of [main], for the first [ticks] ticks. *)
Lemma daemon_run client cfg i ticks w :
  let first := runUpdate client cfg w in
  let loop := tickLoop client cfg ticks (out_world first) in
  (log (LogDaemonMode i) ;; runUpdate client cfg ;;
   tickLoop client cfg ticks ;; ret Waiting) w
  = mkOut (out_world loop)
      (EvLog (LogDaemonMode i) :: out_trace first ++ out_trace loop)
      (Ok Waiting).
Proof.
  intros first loop.
  rewrite (bind_run (log (LogDaemonMode i)) _ w tt) by done.
  cbn [log emit out_world out_trace].
  rewrite runUpdate_bind. fold first.
  rewrite (bind_run (tickLoop client cfg ticks) _ _ tt) by apply tickLoop_run.
  fold loop. cbn [ret out_world out_trace out_result].
  by rewrite app_nil_r.
Qed.

(** C7. Without a positive interval the process exits with status 1
    when the config cannot be loaded, when the client cannot be built,
    or when its one cycle fails (and with status 0 when the cycle
    succeeds).  With a positive interval it exits with status 1 when
    the config cannot be loaded or the client cannot be built, and
    otherwise never exits: however many ticks the ticker has delivered
    and whichever cycles have failed, the process is waiting for the
    next tick, it has run one cycle at the start and one for each tick,
    each tick runs its cycle from wherever the ticks before it have left
    the world, and a cycle that fails is logged and nothing more. *)
Theorem exit_behaviour (flags : Flags) (ticks : nat) (w : World) :
  let run := main flags ticks w in
  let load := loadConfig (configPath flags) w in
  let create :=
    createClient (tailnet flags) (apiKey flags) (clientID flags)
      (clientSecret flags) (baseURL flags) (out_world load) in
  (∀ e, out_result load = Err e → out_result run = Ok (Exited 1)) ∧
  (∀ cfg e,
     out_result load = Ok cfg → out_result create = Err e →
     out_result run = Ok (Exited 1)) ∧
  (∀ cfg client,
     out_result load = Ok cfg → out_result create = Ok client →
     let cycle := updateDNS client cfg (out_world create) in
     (¬ (0 < interval flags)%Z →
      (∀ e, out_result cycle = Err e → out_result run = Ok (Exited 1)) ∧
      (out_result cycle = Ok tt → out_result run = Ok (Exited 0))) ∧
     ((0 < interval flags)%Z →
      out_result run = Ok Waiting ∧
      cyclesEnded (out_trace run) = S ticks ∧
      (∀ e, out_result cycle = Err e →
            EvLog (LogErrorUpdatingDNS e) ∈ out_trace run) ∧
      (∀ n w',
         out_result (tickLoop client cfg n w') = Ok tt ∧
         out_trace (tickLoop client cfg (S n) w') =
           out_trace (tickLoop client cfg n w') ++
           out_trace (runUpdate client cfg (out_world (tickLoop client cfg n w')))) ∧
      (∀ w' e,
         out_result (updateDNS client cfg w') = Err e →
         out_result (runUpdate client cfg w') = Ok tt ∧
         out_trace (runUpdate client cfg w') =
           out_trace (updateDNS client cfg w') ++ [EvLog (LogErrorUpdatingDNS e)]))).
Proof.
  intros run load create.
  unfold run, main. rewrite handle_run. fold load. cbv zeta.
  split; [|split].
  - intros e ->. done.
  - intros cfg e -> Hcreate. rewrite handle_run. fold create.
    by rewrite Hcreate.
  - intros cfg client Hload Hcreate.
    set (cycle := updateDNS client cfg (out_world create)). rewrite Hload.
    rewrite handle_run. fold create.
    rewrite Hcreate. cbv zeta. split.
    + intros Hone. apply Z.ltb_nlt in Hone as Hgt.
      rewrite Z.gtb_ltb, Hgt. rewrite handle_run. fold cycle. cbv zeta.
      split; [by intros e ->|by intros ->].
    + intros Hdaemon. apply Z.ltb_lt in Hdaemon as Hgt.
      rewrite Z.gtb_ltb, Hgt, daemon_run.
      cbn [out_result out_trace out_world].
      split; [done|]. split; [|split; [|split]].
      * rewrite !cyclesEnded_app.
        rewrite (loadConfig_no_cycle_end (configPath flags) w : cyclesEnded (out_trace load) = 0).
        rewrite (createClient_no_cycle_end _ _ _ _ _ _ : cyclesEnded (out_trace create) = 0).
        change (cyclesEnded (EvLog (LogDaemonMode (interval flags)) :: ?t))
          with (cyclesEnded t).
        rewrite !cyclesEnded_app, runUpdate_one_cycle.
        destruct (tickLoop_run client cfg ticks
                    (out_world (runUpdate client cfg (out_world create))))
          as [_ ->].
        unfold cyclesEnded. simpl. lia.
      * intros e He.
        destruct (runUpdate_run client cfg (out_world create)) as (_ & _ & ->).
        fold cycle. rewrite He.
        rewrite !elem_of_app. right. right.
        rewrite elem_of_cons, !elem_of_app. right. left. right.
        by apply list_elem_of_singleton.
      * intros n w'. split; [apply tickLoop_run|apply tickLoop_next].
      * intros w' e He.
        destruct (runUpdate_run client cfg w') as (-> & _ & ->).
        by rewrite He.
Qed.

End Runs.

(** * Further properties of the code *)

Section Further.
Context {World URL : Type} `{!Env World URL}.
Local Open Scope list_scope.
Local Open Scope nat_scope.

(** ** [getDeviceIP] *)

Lemma getDeviceIP_error hostname devices e :
  getDeviceIP hostname devices = Err e →
  e = ErrDeviceNotFound hostname ∨ e = ErrDeviceNoAddrs hostname.
Proof.
  induction devices as [|device rest IH]; simpl.
  - intros [= <-]. by left.
  - destruct (deviceMatches hostname device); [|done].
    destruct (Addresses device); [|done]. intros [= <-]. by right.
Qed.

(** X1. The answer over two device lists put end to end is the answer
    over the first, unless the first has no matching device at all: a
    matching device without addresses in the first list is an error
    that no device of the second list repairs. *)
Theorem getDeviceIP_app (hostname : string) (devices1 devices2 : list Device) :
  getDeviceIP hostname (devices1 ++ devices2) =
    match getDeviceIP hostname devices1 with
    | Err (ErrDeviceNotFound _) => getDeviceIP hostname devices2
    | answer => answer
    end.
Proof.
  induction devices1 as [|device rest IH]; simpl; [done|].
  destruct (deviceMatches hostname device); [|done].
  by destruct (Addresses device).
Qed.

(** ** [getServiceIP] and [createClient] *)

(** The rest of [getServiceIP] after the call of [httpClient.Do]. *)
Ltac after_do :=
  unfold httpDo;
  destruct (HTTPClient_Do _ _ _) as [w1 [resp|e]]; simpl; [|done];
  unfold serviceAnswer, liftResult, fail, ret;
  destruct (negb _); [done|];
  destruct (json_Decode_ServiceInfo _) as [svcInfo|]; [|done];
  simpl; by destruct (Addrs svcInfo).

(** X2. [getServiceIP] sends at most one request.  A URL the request
    constructor rejects is that error with nothing sent; a client
    without API key and without HTTP client is the no-auth error with
    nothing sent.  Otherwise one GET request for the service URL goes
    out: with the API key as basic-auth user and an empty password
    through a fresh default client whenever the API key is set, an HTTP
    client on the tailscale client notwithstanding; through that HTTP
    client, without basic auth, when only it is set.  The result is
    then read off the answer. *)
Theorem getServiceIP_request
    (client : Client URL) (serviceName : string) (w : World) :
  let run := getServiceIP client serviceName w in
  let url := serviceURL client serviceName in
  let sent hc req :=
    mkOut (HTTPClient_Do hc req w).1
      [EvHTTPDo hc req (HTTPClient_Do hc req w).2]
      (serviceAnswer serviceName (HTTPClient_Do hc req w).2) in
  (∀ err, http_NewRequest_error url = Some err → run = mkOut w [] (Err err)) ∧
  (http_NewRequest_error url = None →
   (APIKey client ≠ "" →
    run = sent DefaultHTTPClient (mkRequest "GET" url (Some (APIKey client, "")))) ∧
   (∀ hc, APIKey client = "" → HTTP client = Some hc →
    run = sent hc (mkRequest "GET" url None)) ∧
   (APIKey client = "" → HTTP client = None → run = mkOut w [] (Err ErrNoAuth))).
Proof.
  intros run url sent. unfold run, sent, getServiceIP. fold url. split.
  - by intros err ->.
  - intros ->. unfold bind.
    destruct (String.eqb_spec (APIKey client) "") as [Hkey|Hkey]; simpl.
    + split; [done|]. split; [|by intros _ ->].
      intros hc _ ->. simpl. after_do.
    + split; [|by split]. intros _. after_do.
Qed.

Lemma createClient_ok_inv tailnet apiKey clientID clientSecret baseURL w client :
  out_result (createClient tailnet apiKey clientID clientSecret baseURL w) = Ok client →
  ∃ parsedURL,
    url_Parse baseURL = Ok parsedURL ∧
    ((clientID ≠ "" ∧ clientSecret ≠ "" ∧
      client = mkClient tailnet parsedURL ""
                 (Some (OAuthHTTPClient
                          (mkOAuthConfig clientID clientSecret
                             (baseURL ++ "/api/v2/oauth/token"))))) ∨
     (¬ (clientID ≠ "" ∧ clientSecret ≠ "") ∧ apiKey ≠ "" ∧
      client = mkClient tailnet parsedURL apiKey None)).
Proof.
  unfold createClient. destruct (url_Parse baseURL) as [parsedURL|]; [|done].
  intros Hres. exists parsedURL. split; [done|].
  destruct (String.eqb_spec clientID "") as [Hid|Hid];
    destruct (String.eqb_spec clientSecret "") as [Hsec|Hsec];
    destruct (String.eqb_spec apiKey "") as [Hkey|Hkey];
    simpl in Hres; try done; inversion Hres; subst;
    first [by left | right; split; [by intros [? ?]|done]].
Qed.

(** X3. Building the client calls nothing outside and leaves the world
    as it is: its only trace is the one line that names the
    authentication mode, and an error leaves no line.  The client it
    returns has the tailnet it was given and the parsed base URL, and
    carries one credential and not the other: the OAuth HTTP client
    with an empty API key, or the API key with no HTTP client. *)
Theorem createClient_client
    (tailnet apiKey clientID clientSecret baseURL : string) (w : World) :
  let run := createClient tailnet apiKey clientID clientSecret baseURL w in
  out_world run = w ∧
  (∀ e, out_result run = Err e → out_trace run = []) ∧
  (∀ client, out_result run = Ok client →
     Tailnet client = tailnet ∧
     url_Parse baseURL = Ok (BaseURL client) ∧
     ((APIKey client = "" ∧
       (∃ oauthConfig, HTTP client = Some (OAuthHTTPClient oauthConfig)) ∧
       out_trace run = [EvLog LogUsingOAuth]) ∨
      (APIKey client = apiKey ∧ apiKey ≠ "" ∧ HTTP client = None ∧
       out_trace run = [EvLog LogUsingAPIKey]))).
Proof.
  intros run. unfold run, createClient.
  destruct (url_Parse baseURL) as [parsedURL|]; [|done].
  destruct (String.eqb_spec clientID "") as [Hid|Hid];
    destruct (String.eqb_spec clientSecret "") as [Hsec|Hsec];
    destruct (String.eqb_spec apiKey "") as [Hkey|Hkey]; simpl;
    (split; [done|]); (split; [done|]); intros client Hres;
    try done; inversion Hres; subst; simpl;
    (split; [done|]); (split; [done|]);
    first [by right | left; split; [done|]; split; [eauto|done]].
Qed.

(** What [getServiceIP] leaves in the trace. *)
Lemma getServiceIP_trace client serviceName w :
  out_trace (getServiceIP client serviceName w) =
    match http_NewRequest_error (serviceURL client serviceName) with
    | Some _ => []
    | None =>
        if negb (String.eqb (APIKey client) "") then
          let req :=
            mkRequest "GET" (serviceURL client serviceName) (Some (APIKey client, "")) in
          [EvHTTPDo DefaultHTTPClient req (HTTPClient_Do DefaultHTTPClient req w).2]
        else
          match HTTP client with
          | Some hc =>
              let req := mkRequest "GET" (serviceURL client serviceName) None in
              [EvHTTPDo hc req (HTTPClient_Do hc req w).2]
          | None => []
          end
    end.
Proof.
  unfold getServiceIP.
  destruct (http_NewRequest_error _); [done|]. unfold bind.
  destruct (negb (String.eqb (APIKey client) "")); simpl; [after_do|].
  destruct (HTTP client) as [hc|]; simpl; [after_do|done].
Qed.

(** X4. A client that [createClient] returned can send its service
    lookups: whenever the request can be built, one request goes out.
    It goes through the OAuth HTTP client, with the token endpoint
    under the base URL and without basic auth, when the client id and
    the client secret were both given, the API key being ignored then;
    otherwise through a default client with the API key as basic-auth
    user. *)
Theorem created_client_authenticates
    (tailnet apiKey clientID clientSecret baseURL serviceName : string)
    (w w' : World) (client : Client URL) :
  out_result (createClient tailnet apiKey clientID clientSecret baseURL w) = Ok client →
  let run := getServiceIP client serviceName w' in
  (http_NewRequest_error (serviceURL client serviceName) = None →
   ∃ hc req r, out_trace run = [EvHTTPDo hc req r]) ∧
  (∀ hc req r, EvHTTPDo hc req r ∈ out_trace run →
     (clientID ≠ "" ∧ clientSecret ≠ "" →
      hc = OAuthHTTPClient
             (mkOAuthConfig clientID clientSecret (baseURL ++ "/api/v2/oauth/token")) ∧
      BasicAuth req = None) ∧
     (¬ (clientID ≠ "" ∧ clientSecret ≠ "") →
      hc = DefaultHTTPClient ∧ BasicAuth req = Some (apiKey, ""))).
Proof.
  intros Hcreated run. unfold run. rewrite getServiceIP_trace.
  apply createClient_ok_inv in Hcreated
    as (parsedURL & _ & [(Hid & Hsec & ->)|(Hno & Hkey & ->)]); simpl.
  - split.
    + intros ->. eauto.
    + intros hc req r Hin.
      destruct (http_NewRequest_error _); [by apply elem_of_nil in Hin|].
      apply list_elem_of_singleton in Hin. inversion Hin; subst.
      split; [done|]. intros Hno. by destruct Hno.
  - destruct (String.eqb_spec apiKey "") as [|_]; [done|]. simpl. split.
    + intros ->. eauto.
    + intros hc req r Hin.
      destruct (http_NewRequest_error _); [by apply elem_of_nil in Hin|].
      apply list_elem_of_singleton in Hin. inversion Hin; subst.
      split; [|done]. intros Hboth. by destruct Hno.
Qed.

(** ** The table and the errors of a pass *)


Lemma NsRun_blames client devices domain ns t e :
  NsRun client devices domain ns t (Err e) → blames ns e.
Proof.
  inversion 1 as [| |c Hs Hd Hg| |t' c Hs Hsvc]; subst.
  - right. split; [done|]. simpl.
    by destruct (getDeviceIP_error _ _ _ Hg) as [->| ->]; [left|right].
  - left. split; [done|]. by exists c.
Qed.

Lemma NssRun_blames client devices domain nameservers resolved t r :
  NssRun client devices domain nameservers resolved t r →
  ∀ e, r = Err e → ∃ ns, ns ∈ nameservers ∧ blames ns e.
Proof.
  induction 1 as [|ns rest resolved t e' Hns|ns rest resolved t1 ip t2 r Hns _ IH];
    intros e Hr.
  - done.
  - inversion Hr; subst. exists ns. split; [left|by eapply NsRun_blames].
  - destruct (IH e Hr) as (ns' & Hin & Hb). exists ns'. split; [by right|done].
Qed.

Lemma DomsRun_blames client devices order splitDNS t r :
  DomsRun client devices order splitDNS t r →
  ∀ e, r = Err e →
  ∃ domain nameservers ns,
    (domain, nameservers) ∈ order ∧ ns ∈ nameservers ∧ blames ns e.
Proof.
  induction 1 as [|d nss rest acc t e' Hd|d nss rest acc t1 ips t2 r Hd _ IH];
    intros e Hr.
  - done.
  - inversion Hr; subst.
    destruct (NssRun_blames _ _ _ _ _ _ _ Hd e eq_refl) as (ns & Hin & Hb).
    exists d, nss, ns. split; [left|done].
  - destruct (IH e Hr) as (d' & nss' & ns & Hin & Hns & Hb).
    exists d', nss', ns. split; [by right|done].
Qed.

(** X6. The error of a pass says what failed: it is the error of the
    device-list fetch, wrapped, and then the config has a [device:]
    reference and nothing else was tried; or it names a reference of
    the config, as the wrapped error of that service lookup or as that
    device not found or without addresses. *)
Theorem resolveSplitDNS_error_names_reference
    (client : Client URL) (cfg : Config) (w : World) (e : error) :
  let pass := resolveSplitDNS client cfg w in
  out_result pass = Err e →
  (configHasDeviceRef cfg ∧
   ∃ cause, e = ErrListingDevices cause ∧
            out_trace pass = [EvListDevices (Err cause)]) ∨
  (∃ domain nameservers ns,
     cfg !! domain = Some nameservers ∧ ns ∈ nameservers ∧ blames ns e).
Proof.
  intros pass He.
  destruct (resolveSplitDNS_cases client cfg w)
    as [(_ & order & w1 & Hperm & _ & Hr)
       |[(Hhas & cause & Ht & Hr)
        |(_ & devices & order & w1 & Hperm & _ & Hr)]];
    fold pass in Hr; rewrite He in Hr.
  - right.
    destruct (DomsRun_blames _ _ _ _ _ _ (resolveDomains_run client [] order ∅ w1)
                e (eq_sym Hr)) as (d & nss & ns & Hd & Hns & Hb).
    exists d, nss, ns. split; [by apply (order_lookup cfg order)|done].
  - left. split; [done|]. exists cause. split; [congruence|done].
  - right.
    destruct (DomsRun_blames _ _ _ _ _ _ (resolveDomains_run client devices order ∅ w1)
                e (eq_sym Hr)) as (d & nss & ns & Hd & Hns & Hb).
    exists d, nss, ns. split; [by apply (order_lookup cfg order)|done].
Qed.

(** ** The order of the lookups *)







(** ** Configs without service references *)

Lemma NssRun_local client devices domain nameservers resolved t r :
  NssRun client devices domain nameservers resolved t r →
  (∀ ns, ns ∈ nameservers →
     HasPrefix ns "svc:" = false ∧ is_Some (resolveLocal devices ns)) →
  is_ok r = true.
Proof.
  induction 1 as [|ns rest resolved t e Hns|ns rest resolved t1 ip t2 r Hns _ IH];
    intros Hall.
  - done.
  - exfalso. destruct (Hall ns) as [Hs [ip Hloc]]; [left|].
    unfold resolveLocal in Hloc.
    inversion Hns as [| |c _ Hd Hg| |t' c Hs' _]; subst; [|congruence].
    by rewrite Hd, Hg in Hloc.
  - apply IH. intros ns' Hin. apply Hall. by right.
Qed.

Lemma DomsRun_local client devices order splitDNS t r :
  DomsRun client devices order splitDNS t r →
  (∀ domain nameservers ns,
     (domain, nameservers) ∈ order → ns ∈ nameservers →
     HasPrefix ns "svc:" = false ∧ is_Some (resolveLocal devices ns)) →
  is_ok r = true.
Proof.
  induction 1 as [|d nss rest acc t e Hd|d nss rest acc t1 ips t2 r Hd _ IH];
    intros Hall.
  - done.
  - apply (NssRun_local _ _ _ _ _ _ _ Hd). intros ns Hin.
    apply (Hall d nss ns); [left|done].
  - apply IH. intros d' nss' ns Hin. apply (Hall d' nss' ns). by right.
Qed.

(** X8. For a config without [svc:] references a pass makes no service
    lookup, and when the device list was not refused its outcome is
    settled by the config and the device list alone, whatever the order
    in which the domains are walked: the pass returns a table exactly
    when every [device:] reference resolves on the list, and the table
    is then the config with every reference replaced by what it
    resolves to. *)
Theorem local_config_outcome
    (client : Client URL) (cfg : Config) (w : World) :
  (∀ domain nameservers ns,
     cfg !! domain = Some nameservers → ns ∈ nameservers →
     HasPrefix ns "svc:" = false) →
  let pass := resolveSplitDNS client cfg w in
  let devices := fetchedDevices (out_trace pass) in
  serviceLookups (out_trace pass) = 0 ∧
  ((∀ e, EvListDevices (Err e) ∉ out_trace pass) →
   (is_ok (out_result pass) = true ↔
    ∀ domain nameservers ns,
      cfg !! domain = Some nameservers → ns ∈ nameservers →
      is_Some (resolveLocal devices ns)) ∧
   (∀ table, out_result pass = Ok table →
      table = omap (mapM (resolveLocal devices)) cfg)).
Proof.
  intros Hlocal pass devices.
  assert (∀ table, out_result pass = Ok table →
            ∀ domain nameservers, cfg !! domain = Some nameservers →
            ∃ ips, table !! domain = Some ips ∧
                   mapM (resolveLocal devices) nameservers = Some ips) as Hmap.
  { intros table Hok domain nameservers Hdom.
    pose proof (resolveSplitDNS_table client cfg w table Hok domain) as Htab.
    rewrite Hdom in Htab. destruct Htab as (ips & Hlook & Hall).
    exists ips. split; [done|]. apply mapM_Some.
    apply Forall2_same_length_lookup. split; [by eapply Forall2_length|].
    intros i ns ip Hi Hip.
    destruct (Forall2_lookup_l _ _ _ _ _ Hall Hi) as (ip' & Hip' & Hres).
    assert (ip' = ip) as -> by congruence.
    unfold resolvedAs in Hres. unfold resolveLocal, devices, pass.
    rewrite (Hlocal domain nameservers ns Hdom) in Hres
      by (eapply list_elem_of_lookup_2; exact Hi).
    destruct (HasPrefix ns "device:"); [by rewrite Hres|by subst]. }
  split; [|intros Hfetch; split; [split|]].
  - unfold serviceLookups. rewrite filter_none; [done|].
    intros ev Hin. destruct ev as [| | |hc req r|]; try done. exfalso.
    assert (∀ devs order w1,
              order ≡ₚ map_to_list cfg →
              EvHTTPDo hc req r ∉ out_trace (resolveDomains client devs order ∅ w1))
      as Hloop.
    { intros devs order w1 Hperm Hin'.
      destruct (DomsRun_events _ _ _ _ _ _ _ (resolveDomains_run _ _ _ _ _) Hin')
        as (d & nss & ns & Hd & Hns & Hev).
      apply (order_lookup cfg order) in Hd; [|done].
      pose proof (Hlocal d nss ns Hd Hns) as Hs. inversion Hev; congruence. }
    destruct (resolveSplitDNS_cases client cfg w)
      as [(_ & order & w1 & Hperm & Ht & _)
         |[(_ & e & Ht & _)
          |(_ & devs & order & w1 & Hperm & Ht & _)]];
      fold pass in Ht; rewrite Ht in Hin.
    + by eapply Hloop.
    + by apply list_elem_of_singleton in Hin.
    + apply elem_of_cons in Hin as [?|Hin]; [done|]. by eapply Hloop.
  - intros Hok domain nameservers ns Hdom Hns.
    destruct (out_result pass) as [table|] eqn:Hres; [|done].
    destruct (Hmap table eq_refl domain nameservers Hdom) as (ips & _ & Hm).
    apply mapM_Some in Hm. apply list_elem_of_lookup in Hns as [i Hi].
    destruct (Forall2_lookup_l _ _ _ _ _ Hm Hi) as (ip & _ & ->). by eexists.
  - intros Hall.
    destruct (resolveSplitDNS_cases client cfg w)
      as [(_ & order & w1 & Hperm & Ht & Hr)
         |[(_ & e & Ht & _)
          |(_ & devs & order & w1 & Hperm & Ht & Hr)]];
      fold pass in Ht; try fold pass in Hr.
    + rewrite Hr.
      apply (DomsRun_local _ _ _ _ _ _ (resolveDomains_run client [] order ∅ w1)).
      intros d nss ns Hd Hns. apply (order_lookup cfg order) in Hd; [|done].
      split; [by eapply Hlocal|].
      replace [] with devices; [by eapply Hall|].
      unfold devices. rewrite Ht.
      by eapply DomsRun_fetched_nil, resolveDomains_run.
    + destruct (Hfetch e). rewrite Ht. left.
    + rewrite Hr.
      apply (DomsRun_local _ _ _ _ _ _ (resolveDomains_run client devs order ∅ w1)).
      intros d nss ns Hd Hns. apply (order_lookup cfg order) in Hd; [|done].
      split; [by eapply Hlocal|].
      replace devs with devices; [by eapply Hall|].
      unfold devices. by rewrite Ht.
  - intros table Hok. apply map_eq. intros domain. rewrite lookup_omap.
    destruct (cfg !! domain) as [nameservers|] eqn:Hdom; simpl.
    + by destruct (Hmap table Hok domain nameservers Hdom) as (ips & -> & ->).
    + pose proof (resolveSplitDNS_table client cfg w table Hok domain) as Htab.
      by rewrite Hdom in Htab.
Qed.

(** ** What a cycle and the run loop leave in the trace *)

(** An event of a pass is the fetch of the device list or an event of
    the resolution of a reference. *)
Lemma resolveSplitDNS_events client cfg w ev :
  ev ∈ out_trace (resolveSplitDNS client cfg w) →
  (∃ a, ev = EvListDevices a) ∨
  (∃ devices domain ns, NsEvent client devices domain ns ev).
Proof.
  intros Hin.
  destruct (resolveSplitDNS_cases client cfg w)
    as [(_ & order & w1 & _ & Ht & _)
       |[(_ & e & Ht & _)
        |(_ & devices & order & w1 & _ & Ht & _)]];
    rewrite Ht in Hin.
  - destruct (DomsRun_events _ _ _ _ _ _ _ (resolveDomains_run _ _ _ _ _) Hin)
      as (d & nss & ns & _ & _ & Hev). right. by exists [], d, ns.
  - apply list_elem_of_singleton in Hin as ->. left. by eexists.
  - apply elem_of_cons in Hin as [->|Hin]; [left; by eexists|].
    destruct (DomsRun_events _ _ _ _ _ _ _ (resolveDomains_run _ _ _ _ _) Hin)
      as (d & nss & ns & _ & _ & Hev). right. by exists devices, d, ns.
Qed.

(** Whatever holds of every log line and of every remote call holds of
    every event of a cycle, of [runUpdate] and of the loop over the
    ticks: they do nothing else. *)
Lemma updateDNS_events (P : Event → Prop) client cfg w :
  (∀ m, P (EvLog m)) →
  (∀ ev, isRemoteCall ev = true → P ev) →
  ∀ ev, ev ∈ out_trace (updateDNS client cfg w) → P ev.
Proof.
  intros Hlog Hremote ev Hin.
  assert (∀ ev, ev ∈ out_trace (resolveSplitDNS client cfg w) → P ev) as Hpass.
  { intros ev' Hin'.
    apply resolveSplitDNS_events in Hin' as [[a ->]|(devs & d & ns & Hev)].
    - by apply Hremote.
    - destruct Hev; first [apply Hlog | by apply Hremote]. }
  pose proof (updateDNS_cases client cfg w) as Hcases. cbv zeta in Hcases.
  destruct (out_result (resolveSplitDNS client cfg w)) as [table|e].
  - destruct Hcases as (order & a & _ & Ht & _). rewrite Ht in Hin.
    apply elem_of_app in Hin as [Hin|Hin]; [by apply Hpass|].
    apply elem_of_cons in Hin as [->|Hin]; [apply Hlog|].
    apply elem_of_app in Hin as [Hin|Hin].
    + apply list_elem_of_fmap in Hin as (entry & -> & _). apply Hlog.
    + apply elem_of_cons in Hin as [->|Hin]; [by apply Hremote|].
      destruct a; [by apply elem_of_nil in Hin|].
      apply list_elem_of_singleton in Hin as ->. apply Hlog.
  - destruct Hcases as [Ht _]. rewrite Ht in Hin. by apply Hpass.
Qed.

Lemma runUpdate_events (P : Event → Prop) client cfg w :
  (∀ m, P (EvLog m)) →
  (∀ ev, isRemoteCall ev = true → P ev) →
  ∀ ev, ev ∈ out_trace (runUpdate client cfg w) → P ev.
Proof.
  intros Hlog Hremote ev Hin.
  destruct (runUpdate_run client cfg w) as (_ & _ & Ht). rewrite Ht in Hin.
  apply elem_of_app in Hin as [Hin|Hin]; [by eapply updateDNS_events|].
  destruct (out_result (updateDNS client cfg w)); [by apply elem_of_nil in Hin|].
  apply list_elem_of_singleton in Hin as ->. apply Hlog.
Qed.

Lemma tickLoop_events (P : Event → Prop) client cfg ticks w :
  (∀ m, P (EvLog m)) →
  (∀ ev, isRemoteCall ev = true → P ev) →
  ∀ ev, ev ∈ out_trace (tickLoop client cfg ticks w) → P ev.
Proof.
  intros Hlog Hremote. revert w.
  induction ticks as [|n IH]; intros w ev Hin; simpl in Hin.
  - by apply elem_of_nil in Hin.
  - rewrite runUpdate_bind in Hin. simpl in Hin.
    apply elem_of_app in Hin as [Hin|Hin]; [by eapply runUpdate_events|].
    by eapply IH.
Qed.

(** The trace of [main], stage after stage. *)
Lemma main_trace flags ticks w :
  let load := loadConfig (configPath flags) w in
  let create :=
    createClient (tailnet flags) (apiKey flags) (clientID flags)
      (clientSecret flags) (baseURL flags) (out_world load) in
  out_trace (main flags ticks w) =
    out_trace load ++
    match out_result load with
    | Err e => [EvLog (LogFatalLoadConfig e)]
    | Ok cfg =>
        out_trace create ++
        match out_result create with
        | Err e => [EvLog (LogFatalCreateClient e)]
        | Ok client =>
            if (interval flags >? 0)%Z then
              let first := runUpdate client cfg (out_world create) in
              EvLog (LogDaemonMode (interval flags))
                :: out_trace first
                   ++ out_trace (tickLoop client cfg ticks (out_world first))
            else
              let cycle := updateDNS client cfg (out_world create) in
              out_trace cycle ++
              match out_result cycle with
              | Err e => [EvLog (LogFatalUpdateDNS e)]
              | Ok _ => []
              end
        end
    end.
Proof.
  intros load create. unfold main. rewrite handle_run. fold load. cbv zeta.
  cbn [out_trace]. f_equal.
  destruct (out_result load) as [cfg|e]; [|done].
  rewrite handle_run. fold create. cbv zeta. cbn [out_trace]. f_equal.
  destruct (out_result create) as [client|e]; [|done].
  destruct (interval flags >? 0)%Z.
  - by rewrite daemon_run.
  - rewrite handle_run. cbv zeta. cbn [out_trace]. f_equal.
    by destruct (out_result (updateDNS client cfg (out_world create))).
Qed.

Lemma loadConfig_trace path w :
  ∃ r, out_trace (loadConfig path w) = [EvReadFile path r].
Proof.
  unfold loadConfig, bind, wrapErr, readFile, liftResult.
  destruct (os_ReadFile path w) as [w1 [data|e]]; simpl.
  - exists (Ok data). by destruct (json_Unmarshal_Config data).
  - by exists (Err e).
Qed.

Lemma createClient_trace_logs tailnet apiKey clientID clientSecret baseURL w ev :
  ev ∈ out_trace (createClient tailnet apiKey clientID clientSecret baseURL w) →
  ∃ m, ev = EvLog m.
Proof.
  unfold createClient. destruct (url_Parse baseURL);
    [|by intros ?%elem_of_nil].
  destruct (negb (String.eqb clientID "") && negb (String.eqb clientSecret ""));
    simpl; [intros ->%list_elem_of_singleton; by eexists|].
  destruct (negb (String.eqb apiKey "")); simpl;
    [intros ->%list_elem_of_singleton; by eexists|by intros ?%elem_of_nil].
Qed.

(** X10. Whatever the mode, the number of ticks and the outcome, [main]
    reads one file, once, first of all: the config file it was given.
    The daemon never reads the config again. *)
Theorem main_reads_config_once (flags : Flags) (ticks : nat) (w : World) :
  ∃ r rest,
    out_trace (main flags ticks w) = EvReadFile (configPath flags) r :: rest ∧
    ∀ path r', EvReadFile path r' ∉ rest.
Proof.
  rewrite main_trace. cbv zeta.
  destruct (loadConfig_trace (configPath flags) w) as [r ->].
  exists r. eexists. split; [reflexivity|].
  intros path r' Hin.
  set (P := fun ev : Event => isFileRead ev = false).
  assert (P (EvReadFile path r')) as Hbad; [|done].
  assert (∀ m, P (EvLog m)) as Hlog by done.
  assert (∀ ev, isRemoteCall ev = true → P ev) as Hremote by (by intros []).
  destruct (out_result (loadConfig (configPath flags) w)) as [cfg|e].
  - apply elem_of_app in Hin as [Hin|Hin].
    { by apply createClient_trace_logs in Hin as [m ?]. }
    destruct (out_result (createClient _ _ _ _ _ _)) as [client|e].
    + destruct (interval flags >? 0)%Z.
      * apply elem_of_cons in Hin as [?|Hin]; [done|].
        apply elem_of_app in Hin as [Hin|Hin];
          [by eapply runUpdate_events|by eapply tickLoop_events].
      * apply elem_of_app in Hin as [Hin|Hin]; [by eapply updateDNS_events|].
        destruct (out_result (updateDNS _ _ _));
          [by apply elem_of_nil in Hin|by apply list_elem_of_singleton in Hin].
    + by apply list_elem_of_singleton in Hin.
  - by apply list_elem_of_singleton in Hin.
Qed.

(** X11. When the config cannot be loaded or the client cannot be
    built, [main] has called nothing remote: no device list, no service
    lookup, no submission; the last thing it does is log that error. *)
Theorem main_fails_before_any_remote_call
    (flags : Flags) (ticks : nat) (w : World) (e : error) :
  let run := main flags ticks w in
  let load := loadConfig (configPath flags) w in
  let create :=
    createClient (tailnet flags) (apiKey flags) (clientID flags)
      (clientSecret flags) (baseURL flags) (out_world load) in
  (out_result load = Err e →
   (∀ ev, ev ∈ out_trace run → isRemoteCall ev = false) ∧
   last (out_trace run) = Some (EvLog (LogFatalLoadConfig e))) ∧
  (∀ cfg, out_result load = Ok cfg → out_result create = Err e →
   (∀ ev, ev ∈ out_trace run → isRemoteCall ev = false) ∧
   last (out_trace run) = Some (EvLog (LogFatalCreateClient e))).
Proof.
  intros run load create. unfold run. rewrite main_trace. cbv zeta.
  fold load. fold create.
  destruct (loadConfig_trace (configPath flags) w) as [r Hload].
  fold load in Hload. rewrite Hload. split.
  - intros ->. split; [|done].
    intros ev Hin. apply elem_of_cons in Hin as [->|Hin]; [done|].
    by apply list_elem_of_singleton in Hin as ->.
  - intros cfg -> ->. split.
    + intros ev Hin. apply elem_of_cons in Hin as [->|Hin]; [done|].
      apply elem_of_app in Hin as [Hin|Hin].
      * by apply createClient_trace_logs in Hin as [m ->].
      * by apply list_elem_of_singleton in Hin as ->.
    + by rewrite app_assoc, last_snoc.
Qed.

(** ** Submissions *)

Lemma submissions_app t1 t2 :
  submissions (t1 ++ t2) = submissions t1 + submissions t2.
Proof. unfold submissions. by rewrite List.filter_app, length_app. Qed.

Lemma resolveSplitDNS_submissions client cfg w :
  submissions (out_trace (resolveSplitDNS client cfg w)) = 0.
Proof.
  unfold submissions. rewrite filter_none; [done|].
  intros ev Hin. destruct ev as [| | | |table a]; try done.
  by apply resolveSplitDNS_no_submission in Hin.
Qed.

(** A cycle submits once when its pass returns a table and not at all
    otherwise. *)
Lemma updateDNS_submissions client cfg w :
  submissions (out_trace (updateDNS client cfg w)) =
    if is_ok (out_result (resolveSplitDNS client cfg w)) then 1 else 0.
Proof.
  pose proof (updateDNS_cases client cfg w) as Hcases. cbv zeta in Hcases.
  pose proof (resolveSplitDNS_submissions client cfg w) as Hpass.
  destruct (out_result (resolveSplitDNS client cfg w)) as [table|e]; simpl.
  - destruct Hcases as (order & a & _ & -> & _).
    rewrite submissions_app, Hpass.
    change (submissions (EvLog (LogUpdating (size table)) :: ?t))
      with (submissions t).
    rewrite submissions_app.
    replace (submissions (entryLog <$> order)) with 0.
    2:{ unfold submissions. rewrite filter_none; [done|].
        intros ev Hin. by apply list_elem_of_fmap in Hin as (entry & -> & _). }
    by destruct a.
  - destruct Hcases as [-> _]. done.
Qed.

Lemma runUpdate_submissions client cfg w :
  submissions (out_trace (runUpdate client cfg w)) ≤ 1.
Proof.
  destruct (runUpdate_run client cfg w) as (_ & _ & ->).
  rewrite submissions_app, updateDNS_submissions.
  destruct (is_ok _); destruct (out_result (updateDNS client cfg w));
    unfold submissions; simpl; lia.
Qed.

Lemma tickLoop_submissions client cfg ticks w :
  submissions (out_trace (tickLoop client cfg ticks w)) ≤ ticks.
Proof.
  revert w. induction ticks as [|n IH]; intros w; simpl; [done|].
  rewrite runUpdate_bind. simpl. rewrite submissions_app.
  pose proof (runUpdate_submissions client cfg w).
  pose proof (IH (out_world (runUpdate client cfg w))). lia.
Qed.



(** X12. A run of [main] submits at most one table for each cycle:
    at most one without a positive interval, at most one more than the
    ticks delivered with one.  Without a positive interval the ticks
    play no part at all. *)
Theorem main_submissions_bounded (flags : Flags) (ticks : nat) (w : World) :
  submissions (out_trace (main flags ticks w))
    ≤ (if (interval flags >? 0)%Z then S ticks else 1) ∧
  (¬ (0 < interval flags)%Z → main flags ticks w = main flags 0 w).
Proof.
  split.
  - rewrite main_trace. cbv zeta.
    destruct (loadConfig_trace (configPath flags) w) as [r ->].
    change (submissions ([EvReadFile (configPath flags) r] ++ ?t))
      with (submissions t).
    destruct (out_result (loadConfig (configPath flags) w)) as [cfg|e];
      [|destruct (interval flags >? 0)%Z; unfold submissions; simpl; lia].
    rewrite submissions_app.
    replace (submissions (out_trace (createClient _ _ _ _ _ _))) with 0.
    2:{ unfold submissions. rewrite filter_none; [done|].
        intros ev Hin. by apply createClient_trace_logs in Hin as [m ->]. }
    destruct (out_result (createClient _ _ _ _ _ _)) as [client|e];
      [|destruct (interval flags >? 0)%Z; unfold submissions; simpl; lia].
    destruct (interval flags >? 0)%Z.
    + change (submissions (EvLog (LogDaemonMode (interval flags)) :: ?t))
        with (submissions t).
      rewrite submissions_app.
      match goal with
      | |- context [submissions (out_trace (runUpdate ?c ?g ?v))] =>
          pose proof (runUpdate_submissions c g v);
          pose proof (tickLoop_submissions c g ticks (out_world (runUpdate c g v)))
      end.
      simpl. lia.
    + rewrite submissions_app, updateDNS_submissions.
      destruct (is_ok _); destruct (out_result (updateDNS _ _ _));
        unfold submissions; simpl; lia.
  - intros Hone. apply Z.ltb_nlt in Hone. unfold main, handle.
    destruct (loadConfig (configPath flags) w) as [w1 t1 [cfg|e]]; [|done].
    destruct (createClient _ _ _ _ _ w1) as [w2 t2 [client|e]]; [|done].
    by rewrite Z.gtb_ltb, Hone.
Qed.

(** ** The boundary of the name match *)

Lemma prefix_app_same (h a b : string) :
  String.prefix (h ++ a) (h ++ b) = String.prefix a b.
Proof.
  induction h as [|c h IH]; [done|].
  change (String.prefix (String c (h ++ a)) (String c (h ++ b)) = String.prefix a b).
  cbn [String.prefix]. by destruct (ascii_dec c c).
Qed.

Lemma eqb_app_same (h s : string) :
  String.eqb (h ++ s) h = String.eqb s "".
Proof.
  induction h as [|c h IH]; [done|].
  change (String.eqb (String c (h ++ s)) (String c h) = String.eqb s "").
  cbn [String.eqb]. by rewrite Ascii.eqb_refl.
Qed.

Lemma HasPrefix_dot (s : string) :
  HasPrefix s "." = true ↔ ∃ rest, s = ("." ++ rest)%string.
Proof.
  split.
  - intros Hp. exists (TrimPrefix s "."). by apply TrimPrefix_spec.
  - intros [rest ->]. unfold HasPrefix.
    change (String.prefix "." (String "."%char rest) = true).
    cbn [String.prefix]. destruct (ascii_dec "."%char "."%char); [|done].
    by destruct rest.
Qed.

(** X13. The match on the display name stops at a label: for a device
    whose hostname is not the one looked for and whose display name
    starts with it, the device matches exactly when the display name
    ends there or goes on with a dot.  A name that merely goes on with
    other characters ([web] against [web2.example.ts.net]) does not
    match. *)
Theorem deviceMatches_label_boundary
    (hostname suffix : string) (device : Device) :
  Name device = (hostname ++ suffix)%string →
  Hostname device ≠ hostname →
  (deviceMatches hostname device = true ↔
   suffix = ""%string ∨ ∃ rest, suffix = ("." ++ rest)%string).
Proof.
  intros Hname Hhost. unfold deviceMatches, HasPrefix.
  rewrite Hname, eqb_app_same, prefix_app_same.
  apply String.eqb_neq in Hhost. rewrite Hhost. simpl.
  rewrite orb_true_iff, String.eqb_eq.
  by rewrite <- HasPrefix_dot.
Qed.

End Further.

(** * The claims at concrete inputs *)

Local Open Scope list_scope.
Local Open Scope nat_scope.

(** ** The cases of the tests and of the README *)

Example getDeviceIP_exact_hostname :
  getDeviceIP "test-device" [mkDevice "" "test-device" ["100.64.0.1"; "fd7a::1"]]
  = Ok "100.64.0.1"%string.
Proof. reflexivity. Qed.

Example getDeviceIP_name_prefix :
  getDeviceIP "test-device"
    [mkDevice "test-device.example.ts.net" "other-name" ["100.64.0.2"; "fd7a::2"]]
  = Ok "100.64.0.2"%string.
Proof. reflexivity. Qed.

Example getDeviceIP_full_name :
  getDeviceIP "test-device.example.ts.net"
    [mkDevice "test-device.example.ts.net" "test" ["100.64.0.3"; "fd7a::3"]]
  = Ok "100.64.0.3"%string.
Proof. reflexivity. Qed.

Example getDeviceIP_not_found :
  getDeviceIP "nonexistent" [mkDevice "" "other-device" ["100.64.0.4"]]
  = Err (ErrDeviceNotFound "nonexistent").
Proof. reflexivity. Qed.

Example getDeviceIP_no_addresses :
  getDeviceIP "test-device" [mkDevice "" "test-device" []]
  = Err (ErrDeviceNoAddrs "test-device").
Proof. reflexivity. Qed.

Example getServiceIP_not_found :
  out_result (getServiceIP (Env0 := envNotFound) testClient "svc:nonexistent" tt)
  = Err (ErrAPIStatus 404).
Proof. reflexivity. Qed.

Example getServiceIP_no_addresses :
  out_result
    (getServiceIP
       (Env0 := fixedEnv (Ok []) respondNoAddrs decodeOneAddr (Ok ∅) None)
       testClient "svc:test-service" tt)
  = Err (ErrServiceNoAddrs "svc:test-service").
Proof. reflexivity. Qed.

Example resolveSplitDNS_service :
  out_result
    (resolveSplitDNS (Env0 := envGateway) testClient
       (<["example.com" := ["svc:my-gateway"]]> ∅) tt)
  = Ok (<["example.com" := ["100.64.0.1"]]> ∅).
Proof. vm_compute. reflexivity. Qed.

Example resolveSplitDNS_router :
  out_result (resolveSplitDNS (Env0 := envGateway) testClient cfgRouter tt)
  = Ok (<["internal.example.com" := ["192.168.1.1"; "100.64.0.5"]]> ∅).
Proof. vm_compute. reflexivity. Qed.

Example createClient_invalid_base_url :
  out_result
    (createClient (Env0 := envGateway) "example.com" "tskey-api-test" "" ""
       "://invalid-url" tt)
  = Err (ErrInvalidBaseURL (ErrExternal "missing protocol scheme")).
Proof. reflexivity. Qed.

Example createClient_no_auth :
  out_result
    (createClient (Env0 := envGateway) "example.com" "" "" ""
       "https://api.tailscale.com" tt)
  = Err ErrNeedCreds.
Proof. reflexivity. Qed.

Example main_one_shot_failure :
  out_result
    (main (Env0 := envNotFound)
       (mkFlags "/config.json" "-" "tskey-api-test" "" ""
          "https://api.tailscale.com" 0) 0 tt)
  = Ok (Exited 1).
Proof. vm_compute. reflexivity. Qed.

(** ** The claims *)

Lemma getDeviceIP_precedence_counterexample :
  getDeviceIP "gw" [gwByName; gwByHostname] = Ok "100.64.0.1"%string ∧
  getDeviceIP_by_precedence "gw" [gwByName; gwByHostname] = Ok "100.64.0.2"%string ∧
  getDeviceIP "gw" [gwByName; gwByHostname]
    ≠ getDeviceIP_by_precedence "gw" [gwByName; gwByHostname].
Proof. split; [reflexivity|]. split; [reflexivity|]. intros H. discriminate H. Qed.

Lemma getDeviceIP_first_matching_device_witness :
  ∃ e, out_result (resolveSplitDNS (Env0 := envNoRouter) testClient cfgRouter tt)
       = Err e.
Proof.
  apply (proj2 (proj2 (getDeviceIP_first_matching_device (Env0 := envNoRouter)
                         testClient cfgRouter tt "my-router" [gwByName]))
           "internal.example.com"%string
           ["192.168.1.1"; "device:my-router"]%string).
  - vm_compute. reflexivity.
  - apply list_elem_of_In. simpl. auto.
  - apply list_elem_of_In. vm_compute. auto.
  - vm_compute. reflexivity.
Defined.


Lemma device_list_fetched_at_most_once_witness :
  deviceFetches
    (out_trace (resolveSplitDNS (Env0 := envGateway) testClient cfgTwoDevices tt))
  = 1.
Proof.
  apply (proj1 (device_list_fetched_at_most_once (Env0 := envGateway)
                  testClient cfgTwoDevices tt)).
  exists "internal.example.com"%string,
    ["device:my-router"; "device:my-router"]%string, "device:my-router"%string.
  split; [vm_compute; reflexivity|].
  split; [apply list_elem_of_In; simpl; auto|reflexivity].
Defined.


Lemma literal_config_passes_through_witness :
  out_result (resolveSplitDNS (Env0 := envNotFound) testClient cfgLiteral tt)
    = Ok cfgLiteral ∧
  out_trace (resolveSplitDNS (Env0 := envNotFound) testClient cfgLiteral tt) = [].
Proof.
  apply (literal_config_passes_through (Env0 := envNotFound) testClient cfgLiteral tt).
  intros domain nameservers ns Hdom Hns. unfold cfgLiteral in Hdom.
  apply lookup_insert_Some in Hdom as [[_ <-]|[_ Hdom]].
  - apply list_elem_of_singleton in Hns as ->. split; reflexivity.
  - apply lookup_insert_Some in Hdom as [[_ <-]|[_ Hdom]].
    + apply elem_of_cons in Hns as [->|Hns]; [split; reflexivity|].
      apply list_elem_of_singleton in Hns as ->. split; reflexivity.
    + rewrite lookup_empty in Hdom. discriminate Hdom.
Defined.

Lemma createClient_credentials_witness :
  out_result
    (createClient (Env0 := envGateway) "example.com" "" "test-client-id"
       "test-client-secret" "https://api.tailscale.com" tt)
  = Ok (mkClient "example.com" "https://api.tailscale.com"%string ""
          (Some (OAuthHTTPClient
                   (mkOAuthConfig "test-client-id" "test-client-secret"
                      "https://api.tailscale.com/api/v2/oauth/token")))).
Proof.
  refine (proj1 (proj2 (proj2 (createClient_credentials (Env0 := envGateway)
                                 "example.com" "" "test-client-id"
                                 "test-client-secret" "https://api.tailscale.com" tt)
                          "https://api.tailscale.com"%string _)) _ _).
  - reflexivity.
  - discriminate.
  - discriminate.
Defined.

Lemma exit_behaviour_witness :
  out_result (main (Env0 := envNotFound) daemonFlags 3 tt) = Ok Waiting ∧
  cyclesEnded (out_trace (main (Env0 := envNotFound) daemonFlags 3 tt)) = 4.
Proof.
  pose proof (proj2 (proj2 (exit_behaviour (Env0 := envNotFound) daemonFlags 3 tt))
                cfgTwoServices
                (mkClient "-" "https://api.tailscale.com"%string "tskey-api-test" None)
                eq_refl eq_refl) as [_ Hdaemon].
  destruct (Hdaemon ltac:(reflexivity)) as (Hwaiting & Hcycles & _).
  split; [exact Hwaiting|exact Hcycles].
Defined.

Lemma service_lookups_counterexample :
  serviceLookups
    (out_trace (resolveSplitDNS (Env0 := envNotFound) testClient cfgTwoServices tt))
    = 1 ∧
  svcOccurrences (map_to_list cfgTwoServices) = 2 ∧
  serviceLookups
    (out_trace (resolveSplitDNS (Env0 := envNotFound) testClient cfgTwoServices tt))
    ≠ svcOccurrences (map_to_list cfgTwoServices).
Proof.
  split; [vm_compute; reflexivity|]. split; [vm_compute; reflexivity|].
  vm_compute. intros H. discriminate H.
Qed.

Lemma service_lookups_per_occurrence_witness :
  serviceLookups
    (out_trace (resolveSplitDNS (Env0 := envGateway) testClient cfgSameServiceTwice tt))
  = svcOccurrences (map_to_list cfgSameServiceTwice).
Proof.
  apply (proj2 (service_lookups_per_occurrence (Env0 := envGateway)
                  testClient cfgSameServiceTwice tt)).
  vm_compute. reflexivity.
Defined.


Lemma device_resolution_after_fetch_witness :
  ∃ devices order w1,
    order ≡ₚ map_to_list cfgRouter ∧
    out_trace (resolveSplitDNS (Env0 := envGateway) testClient cfgRouter tt)
    = EvListDevices (Ok devices)
        :: out_trace (resolveDomains (Env0 := envGateway) testClient devices order ∅ w1) ∧
    out_result (resolveSplitDNS (Env0 := envGateway) testClient cfgRouter tt)
    = out_result (resolveDomains (Env0 := envGateway) testClient devices order ∅ w1).
Proof.
  apply (proj1 (proj2 (device_resolution_after_fetch (Env0 := envGateway)
                         testClient cfgRouter tt))
           "my-router"%string "internal.example.com"%string).
  apply list_elem_of_In. vm_compute. auto.
Defined.

(** ** The further properties *)

Lemma getServiceIP_request_witness :
  getServiceIP (Env0 := envGateway) testClient "svc:my-gateway" tt
  = mkOut tt
      [EvHTTPDo DefaultHTTPClient
         (mkRequest "GET"
            "https://api.tailscale.com/api/v2/tailnet/test/services/svc:my-gateway/"
            (Some ("test-key", "")%string))
         (Ok (mkResponse 200 "100.64.0.1"))]
      (Ok "100.64.0.1"%string).
Proof.
  refine (proj1 (proj2 (getServiceIP_request (Env0 := envGateway)
                          testClient "svc:my-gateway" tt) eq_refl) _).
  discriminate.
Defined.

Lemma createClient_client_witness :
  Tailnet oauthClient = "example.com"%string ∧
  url_Parse (Env := envGateway) "https://api.tailscale.com" = Ok (BaseURL oauthClient) ∧
  ((APIKey oauthClient = ""%string ∧
    (∃ oauthConfig, HTTP oauthClient = Some (OAuthHTTPClient oauthConfig)) ∧
    out_trace (createClient (Env0 := envGateway) "example.com" "tskey-api-test"
                 "test-client-id" "test-client-secret"
                 "https://api.tailscale.com" tt)
    = [EvLog LogUsingOAuth]) ∨
   (APIKey oauthClient = "tskey-api-test"%string ∧ "tskey-api-test"%string ≠ ""%string ∧
    HTTP oauthClient = None ∧
    out_trace (createClient (Env0 := envGateway) "example.com" "tskey-api-test"
                 "test-client-id" "test-client-secret"
                 "https://api.tailscale.com" tt)
    = [EvLog LogUsingAPIKey])).
Proof.
  exact (proj2 (proj2 (createClient_client (Env0 := envGateway) "example.com"
                         "tskey-api-test" "test-client-id" "test-client-secret"
                         "https://api.tailscale.com" tt))
           oauthClient eq_refl).
Defined.

Lemma created_client_authenticates_witness :
  (http_NewRequest_error (Env := envGateway)
     (serviceURL (Env0 := envGateway) oauthClient "svc:my-gateway") = None →
   ∃ hc req r,
     out_trace (getServiceIP (Env0 := envGateway) oauthClient "svc:my-gateway" tt)
     = [EvHTTPDo hc req r]) ∧
  (∀ hc req r,
     EvHTTPDo hc req r
       ∈ out_trace (getServiceIP (Env0 := envGateway) oauthClient "svc:my-gateway" tt) →
     ("test-client-id"%string ≠ ""%string ∧ "test-client-secret"%string ≠ ""%string →
      hc = OAuthHTTPClient
             (mkOAuthConfig "test-client-id" "test-client-secret"
                ("https://api.tailscale.com" ++ "/api/v2/oauth/token")%string) ∧
      BasicAuth req = None) ∧
     (¬ ("test-client-id"%string ≠ ""%string ∧ "test-client-secret"%string ≠ ""%string) →
      hc = DefaultHTTPClient ∧ BasicAuth req = Some ("tskey-api-test", "")%string)).
Proof.
  apply (created_client_authenticates (Env0 := envGateway) "example.com"
           "tskey-api-test" "test-client-id" "test-client-secret"
           "https://api.tailscale.com" "svc:my-gateway" tt tt oauthClient).
  reflexivity.
Defined.


Lemma resolveSplitDNS_error_names_reference_witness :
  (configHasDeviceRef cfgRouter ∧
   ∃ cause,
     ErrResolvingDevice "my-router" (ErrDeviceNotFound "my-router")
       = ErrListingDevices cause ∧
     out_trace (resolveSplitDNS (Env0 := envNoRouter) testClient cfgRouter tt)
       = [EvListDevices (Err cause)]) ∨
  (∃ domain nameservers ns,
     cfgRouter !! domain = Some nameservers ∧ ns ∈ nameservers ∧
     blames ns (ErrResolvingDevice "my-router" (ErrDeviceNotFound "my-router"))).
Proof.
  apply (resolveSplitDNS_error_names_reference (Env0 := envNoRouter)
           testClient cfgRouter tt).
  vm_compute. reflexivity.
Defined.


Lemma local_config_outcome_witness :
  serviceLookups
    (out_trace (resolveSplitDNS (Env0 := envGateway) testClient cfgRouter tt)) = 0 ∧
  tableRouter = omap (mapM (resolveLocal [router])) cfgRouter.
Proof.
  assert (∀ domain nameservers ns,
            cfgRouter !! domain = Some nameservers → ns ∈ nameservers →
            HasPrefix ns "svc:" = false) as Hlocal.
  { intros domain nameservers ns Hdom Hns. unfold cfgRouter in Hdom.
    apply lookup_insert_Some in Hdom as [[_ <-]|[_ Hdom]].
    - apply elem_of_cons in Hns as [->|Hns]; [reflexivity|].
      apply list_elem_of_singleton in Hns as ->. reflexivity.
    - rewrite lookup_empty in Hdom. discriminate Hdom. }
  destruct (local_config_outcome (Env0 := envGateway) testClient cfgRouter tt Hlocal)
    as [Hnone Hrest].
  split; [exact Hnone|].
  refine (proj2 (Hrest _) tableRouter _).
  - intros e Hin. apply list_elem_of_In in Hin. vm_compute in Hin.
    destruct Hin as [Hin|[Hin|[Hin|[]]]]; discriminate Hin.
  - vm_compute. reflexivity.
Defined.


Lemma main_fails_before_any_remote_call_witness :
  (∀ ev, ev ∈ out_trace (main (Env0 := envGateway) badURLFlags 2 tt) →
         isRemoteCall ev = false) ∧
  last (out_trace (main (Env0 := envGateway) badURLFlags 2 tt))
  = Some (EvLog (LogFatalCreateClient
                   (ErrInvalidBaseURL (ErrExternal "missing protocol scheme")))).
Proof.
  apply (proj2 (main_fails_before_any_remote_call (Env0 := envGateway)
                  badURLFlags 2 tt
                  (ErrInvalidBaseURL (ErrExternal "missing protocol scheme")))
           cfgSameServiceTwice); reflexivity.
Defined.

Lemma main_submissions_bounded_witness :
  main (Env0 := envGateway) oneShotFlags 5 tt = main (Env0 := envGateway) oneShotFlags 0 tt.
Proof.
  apply (proj2 (main_submissions_bounded (Env0 := envGateway) oneShotFlags 5 tt)).
  simpl. lia.
Defined.

Lemma deviceMatches_label_boundary_witness :
  deviceMatches "web" (mkDevice "web2.example.ts.net" "other" ["100.64.0.9"]) = true ↔
  "2.example.ts.net"%string = ""%string ∨
  ∃ rest, "2.example.ts.net"%string = ("." ++ rest)%string.
Proof.
  apply (deviceMatches_label_boundary "web" "2.example.ts.net"
           (mkDevice "web2.example.ts.net" "other" ["100.64.0.9"])).
  - reflexivity.
  - discriminate.
Defined.
